(** * stl-to-gcode: slicing a triangle mesh and emitting G-code

    A shallow embedding of [stl-to-gcode.py] and the properties of its four
    stages: [calculate_plane_intersection], [slice_model],
    [generate_toolpaths] and [generate_gcode].

    Numbers are IEEE-754 binary64 values, the arithmetic of Python's [float]
    and of numpy's [float64], taken from the Standard Library's executable
    specification [SpecFloat] ([prec = 53], [emax = 1024], round to nearest,
    ties to even).  Nothing is assumed about them: every operation computes.
    The layer height of the script and the heights [generate_gcode] prints
    are Python floats, hence binary64 exactly. *)

From Stdlib Require Import ZArith QArith String Ascii Bool Lia List.
From Stdlib Require Import Sorting.Permutation Sorting.Sorted.
From Stdlib Require Import DecimalString.
From Stdlib Require Import Floats.SpecFloat.
Import ListNotations.
Close Scope Q_scope.
Open Scope Z_scope.

(** ** Binary64 arithmetic *)

Module F64.

Definition prec : Z := 53.
Definition emax : Z := 1024.

Definition float : Type := spec_float.

Definition add : float -> float -> float := SFadd prec emax.
Definition sub : float -> float -> float := SFsub prec emax.
Definition mul : float -> float -> float := SFmul prec emax.
Definition div : float -> float -> float := SFdiv prec emax.

Definition eqb : float -> float -> bool := SFeqb.
Definition ltb : float -> float -> bool := SFltb.
Definition leb : float -> float -> bool := SFleb.

Definition is_nan (x : float) : bool :=
  match x with S754_nan => true | _ => false end.

Definition is_finite (x : float) : bool :=
  match x with S754_zero _ | S754_finite _ _ _ => true | _ => false end.

(** Neither a zero nor NaN: a value one can divide by. *)
Definition nonzero (x : float) : bool :=
  match x with S754_finite _ _ _ | S754_infinity _ => true | _ => false end.

(** The least exponent, and the values that are binary64 numbers: a finite
    one has its mantissa in canonical position and its exponent in range. *)
Definition emin : Z := SpecFloat.emin prec emax.

Definition valid (x : float) : bool := valid_binary prec emax x.

(** The float nearest to an integer: the conversion Python applies to an
    [int] operand, and the value of an integer literal such as [2.0]. *)
Definition of_Z (n : Z) : float := binary_normalize prec emax n 0 false.

(** The value of the decimal literal [n/d] (for instance [0.2] is
    [dec 2 10]): both integers are exact and the division rounds
    correctly, which is what the parser of float literals does. *)
Definition dec (n d : Z) : float := div (of_Z n) (of_Z d).

(** The exact value of a finite float, as a rational number. *)
Definition to_Q (x : float) : Q :=
  match x with
  | S754_finite s m e =>
      let n := if s then Zneg m else Zpos m in
      match e with
      | Zneg p => Qmake n (2 ^ p)%positive
      | _ => Qmake (n * 2 ^ e) 1
      end
  | _ => Qmake 0 1
  end.

(** How two comparisons compose. *)
Definition comp_trans (c1 c2 : comparison) : option comparison :=
  match c1, c2 with
  | Eq, c | c, Eq => Some c
  | Lt, Lt => Some Lt
  | Gt, Gt => Some Gt
  | _, _ => None
  end.

End F64.

(** Single precision, the precision of the arrays read from STL files: the
    float nearest to an integer and the sum of two floats. *)
Module F32.

Definition prec : Z := 24.
Definition emax : Z := 128.

Definition of_Z (n : Z) : spec_float := binary_normalize prec emax n 0 false.
Definition add : spec_float -> spec_float -> spec_float := SFadd prec emax.
Definition div : spec_float -> spec_float -> spec_float := SFdiv prec emax.

End F32.

Definition float : Type := F64.float.

Declare Scope f64_scope.
Delimit Scope f64_scope with f64.
Infix "+" := F64.add : f64_scope.
Infix "-" := F64.sub : f64_scope.
Infix "*" := F64.mul : f64_scope.
Infix "/" := F64.div : f64_scope.
Infix "==" := F64.eqb (at level 70, no associativity) : f64_scope.
Infix "<?" := F64.ltb : f64_scope.
Infix "<=?" := F64.leb : f64_scope.

(** ** Data model *)

(** A row of the 3x3 array of a triangle. *)
Record Vertex : Type := mkVertex { vx : float; vy : float; vz : float }.

(** A two-element slice [p[:2]]. *)
Definition Point2 : Type := (float * float)%type.

(** One entry of [mesh.vectors]: three vertices. *)
Record Triangle : Type := mkTriangle { tv0 : Vertex; tv1 : Vertex; tv2 : Vertex }.

(** [triangle.reshape(3, 3)] followed by indexing with [i]. *)
Definition reshape33 (triangle : Triangle) (i : nat) : Vertex :=
  match i with
  | O => tv0 triangle
  | S O => tv1 triangle
  | _ => tv2 triangle
  end.

(** Element-wise array arithmetic on rows, and the slice [p[:2]]. *)
Definition vsub (p q : Vertex) : Vertex :=
  mkVertex (vx p - vx q)%f64 (vy p - vy q)%f64 (vz p - vz q)%f64.

Definition vadd (p q : Vertex) : Vertex :=
  mkVertex (vx p + vx q)%f64 (vy p + vy q)%f64 (vz p + vz q)%f64.

Definition vscale (t : float) (p : Vertex) : Vertex :=
  mkVertex (t * vx p)%f64 (t * vy p)%f64 (t * vz p)%f64.

Definition xy (p : Vertex) : Point2 := (vx p, vy p).

(** ** [calculate_plane_intersection] *)

(** The test of the [elif]: [(z1 < z <= z2) or (z2 < z <= z1)]. *)
Definition crosses (z1 z2 z : float) : bool :=
  ((z1 <? z) && (z <=? z2) || (z2 <? z) && (z <=? z1))%f64.

(** [p1 + t * (p2 - p1)] with [t = (z - z1) / (z2 - z1)]. *)
Definition interpolate (p1 p2 : Vertex) (z : float) : Vertex :=
  let z1 := vz p1 in
  let z2 := vz p2 in
  let t := ((z - z1) / (z2 - z1))%f64 in
  vadd p1 (vscale t (vsub p2 p1)).

(** One iteration of [for i in range(3)], on the list [intersections]. *)
Definition edge_step (vertices : nat -> Vertex) (z : float)
    (intersections : list Point2) (i : nat) : list Point2 :=
  let p1 := vertices i in
  let p2 := vertices ((i + 1) mod 3)%nat in
  let z1 := vz p1 in
  let z2 := vz p2 in
  if ((z1 == z) && (z2 == z))%f64 then
    intersections ++ [xy p1; xy p2]
  else if crosses z1 z2 z then
    intersections ++ [xy (interpolate p1 p2 z)]
  else
    intersections.

Definition calculate_plane_intersection (triangle : Triangle) (z : float)
    : list Point2 :=
  let vertices := reshape33 triangle in
  fold_left (edge_step vertices z) (seq 0 3) [].

(** What the three bullets of the plane intersector say about one edge. *)
Inductive edge_emits (p1 p2 : Vertex) (z : float) : list Point2 -> Prop :=
  | emits_in_plane :
      (vz p1 == z)%f64 = true -> (vz p2 == z)%f64 = true ->
      edge_emits p1 p2 z [xy p1; xy p2]
  | emits_crossing :
      ((vz p1 == z) && (vz p2 == z))%f64 = false ->
      ((vz p1 <? z)%f64 = true /\ (z <=? vz p2)%f64 = true) \/
      ((vz p2 <? z)%f64 = true /\ (z <=? vz p1)%f64 = true) ->
      edge_emits p1 p2 z
        [xy (vadd p1 (vscale ((z - vz p1) / (vz p2 - vz p1))%f64 (vsub p2 p1)))]
  | emits_nothing :
      ((vz p1 == z) && (vz p2 == z))%f64 = false ->
      ~ ((vz p1 <? z)%f64 = true /\ (z <=? vz p2)%f64 = true) ->
      ~ ((vz p2 <? z)%f64 = true /\ (z <=? vz p1)%f64 = true) ->
      edge_emits p1 p2 z [].

(** The emission of one edge, as a function. *)
Definition edge_points (p1 p2 : Vertex) (z : float) : list Point2 :=
  if ((vz p1 == z) && (vz p2 == z))%f64 then [xy p1; xy p2]
  else if crosses (vz p1) (vz p2) z then [xy (interpolate p1 p2 z)]
  else [].


(** ** [slice_model] *)

(** numpy's reductions [min] and [max] over a float array: the running
    value is kept when it is NaN or already the smaller (larger) one, so a
    NaN propagates; an empty array raises [ValueError]. *)
Definition fmin (a b : float) : float :=
  if (F64.is_nan a || (a <=? b)%f64)%bool then a else b.

Definition fmax (a b : float) : float :=
  if (F64.is_nan a || (b <=? a)%f64)%bool then a else b.

Definition np_min (a : list float) : option float :=
  match a with
  | [] => None
  | x :: rest => Some (fold_left fmin rest x)
  end.

Definition np_max (a : list float) : option float :=
  match a with
  | [] => None
  | x :: rest => Some (fold_left fmax rest x)
  end.

(** A mesh: its [vectors], the triangles in order.  Its attribute [z] is
    the z column of the same array. *)
Definition Mesh : Type := list Triangle.

Definition mesh_vectors (mesh_data : Mesh) : list Triangle := mesh_data.

Definition mesh_z (mesh_data : Mesh) : list float :=
  flat_map (fun t => [vz (tv0 t); vz (tv1 t); vz (tv2 t)]) mesh_data.

(** An entry of a layer is a kept list [intersections]. *)
Definition Segment : Type := list Point2.
Definition Layer : Type := list Segment.

(** What a run of the program comes to: a value, the [ValueError] of an
    empty array, or a loop still running when the fuel is used up. *)
Inductive result (A : Type) : Type :=
  | Ok (a : A)
  | ValueError
  | OutOfFuel.
Arguments Ok {A} a.
Arguments ValueError {A}.
Arguments OutOfFuel {A}.

(** The body of [for triangle in mesh_data.vectors]. *)
Definition triangle_step (z : float) (layer_edges : Layer)
    (triangle : Triangle) : Layer :=
  let intersections := calculate_plane_intersection triangle z in
  if (length intersections =? 2)%nat then layer_edges ++ [intersections]
  else layer_edges.

Definition slice_layer (vectors : list Triangle) (z : float) : Layer :=
  fold_left (triangle_step z) vectors [].

(** [while z <= z_max], one unit of fuel per test of the condition. *)
Fixpoint slice_loop (fuel : nat) (vectors : list Triangle)
    (z_max layer_height z : float) (layers : list Layer)
    : result (list Layer) :=
  match fuel with
  | O => OutOfFuel
  | S fuel' =>
      if (z <=? z_max)%f64 then
        let layer_edges := slice_layer vectors z in
        slice_loop fuel' vectors z_max layer_height
          (z + layer_height)%f64 (layers ++ [layer_edges])
      else Ok layers
  end.

Definition slice_model (fuel : nat) (mesh_data : Mesh) (layer_height : float)
    : result (list Layer) :=
  match np_min (mesh_z mesh_data), np_max (mesh_z mesh_data) with
  | Some z_min, Some z_max =>
      slice_loop fuel (mesh_vectors mesh_data) z_max layer_height z_min []
  | _, _ => ValueError
  end.

(** The height of the sweep after [k] additions of the layer height. *)
Definition swept_height (z_min layer_height : float) (k : nat) : float :=
  Nat.iter k (fun z => (z + layer_height)%f64) z_min.

(** [n] is the number of heights the sweep visits: the first [n] are at
    most [z_max] and the next one is not. *)
Definition sweep_stops (z_min z_max layer_height : float) (n : nat) : Prop :=
  (forall k, (k < n)%nat ->
     (swept_height z_min layer_height k <=? z_max)%f64 = true) /\
  (swept_height z_min layer_height n <=? z_max)%f64 = false.

(** The layers of the heights [z], [z + h], ... visited by [n] iterations. *)
Definition swept_layers (vectors : list Triangle) (z h : float) (n : nat)
    : list Layer :=
  map (fun k => slice_layer vectors (swept_height z h k)) (seq 0 n).

(** The least and the greatest z-coordinate of one triangle, and the plane
    half way between the two ends of an edge. *)
Definition tri_z_min (t : Triangle) : float :=
  fmin (fmin (vz (tv0 t)) (vz (tv1 t))) (vz (tv2 t)).

Definition tri_z_max (t : Triangle) : float :=
  fmax (fmax (vz (tv0 t)) (vz (tv1 t))) (vz (tv2 t)).




(** Vertices with decimal coordinates, in tenths. *)
Definition vertex_tenths (x y z : Z) : Vertex :=
  mkVertex (F64.dec x 10) (F64.dec y 10) (F64.dec z 10).


Definition integer_triangle : Triangle :=
  mkTriangle (vertex_tenths 0 0 0) (vertex_tenths 20 0 20) (vertex_tenths 0 20 20).

(** A vertex with integer coordinates, a mesh of one triangle spanning the
    heights 0 to 1, and one spanning the heights 2^60 to 2^61. *)
Definition vertex_Z (x y z : Z) : Vertex :=
  mkVertex (F64.of_Z x) (F64.of_Z y) (F64.of_Z z).

(** The triangle (0, 0, 0), (1, 0, 0), (0, 1, 0), lying in the plane 0. *)
Definition flat_triangle : Triangle :=
  mkTriangle (vertex_Z 0 0 0) (vertex_Z 1 0 0) (vertex_Z 0 1 0).

Definition unit_mesh : Mesh :=
  [mkTriangle (vertex_Z 0 0 0) (vertex_Z 1 0 1) (vertex_Z 0 1 1)].


(** ** [generate_toolpaths] *)

Definition Toolpath : Type := list Point2.

(** The order of the keys [(p[0], p[1])]: tuples compare at their first
    unequal component. *)
Definition key_lt (p q : Point2) : bool :=
  if negb (fst p == fst q)%f64 then (fst p <? fst q)%f64
  else if negb (snd p == snd q)%f64 then (snd p <? snd q)%f64
  else false.

(** [sorted(path, key=...)]: a stable sort; each element in turn goes into
    the sorted prefix, after the elements it is not smaller than. *)
Fixpoint insert_by_key (pivot : Point2) (prefix : list Point2) : list Point2 :=
  match prefix with
  | [] => [pivot]
  | p :: rest =>
      if key_lt pivot p then pivot :: p :: rest
      else p :: insert_by_key pivot rest
  end.

Definition sorted (path : list Point2) : list Point2 :=
  fold_left (fun prefix pivot => insert_by_key pivot prefix) path [].

(** The order the keys are meant to give: x ascending, then y ascending;
    the points with equal keys; and the points free of NaN. *)
Definition key_le (p q : Point2) : bool :=
  ((fst p <? fst q) || (fst p == fst q) && (snd p <=? snd q))%f64.

Definition key_eq (p q : Point2) : bool :=
  ((fst p == fst q) && (snd p == snd q))%f64.

Definition no_nan (p : Point2) : Prop :=
  F64.is_nan (fst p) = false /\ F64.is_nan (snd p) = false.

(** A path in key order: each point is at most every later one. *)
Definition key_sorted (path : list Point2) : Prop :=
  StronglySorted (fun p q => key_le p q = true) path.

(** The body of [for layer in layers]. *)
Definition layer_path (layer : Layer) : Toolpath :=
  let path := fold_left (fun path edge => path ++ edge) layer [] in
  match path with
  | [] => path
  | _ :: _ => sorted path
  end.

Definition generate_toolpaths (layers : list Layer) : list Toolpath :=
  fold_left (fun toolpaths layer => toolpaths ++ [layer_path layer]) layers [].

(** The layer with the segments [[(2,1),(0,0)], [(1,1),(1,0)]]. *)
Definition point_Z (x y : Z) : Point2 := (F64.of_Z x, F64.of_Z y).

Definition crossed_layer : Layer :=
  [[point_Z 2 1; point_Z 0 0]; [point_Z 1 1; point_Z 1 0]].

(** ** [generate_gcode] *)

Local Open Scope string_scope.

Definition nl : string := String "010"%char EmptyString.

(** The format [.2f]: the exact value of the float, rounded to the nearest
    multiple of 1/100 with ties to even, printed with a sign, the integer
    part, a point and two digits; [inf] and [nan] print as words. *)
Definition round_half_even (n d : Z) : Z :=
  let q := (n / d)%Z in
  let r := (n mod d)%Z in
  match (2 * r ?= d)%Z with
  | Lt => q
  | Gt => (q + 1)%Z
  | Eq => if Z.even q then q else (q + 1)%Z
  end.

Definition hundredths (m : positive) (e : Z) : Z :=
  match e with
  | Zneg p => round_half_even (Zpos m * 100) (2 ^ Zpos p)
  | _ => (Zpos m * 2 ^ e * 100)%Z
  end.

Definition digits (n : Z) : string := NilZero.string_of_uint (N.to_uint (Z.to_N n)).

Definition fixed2 (s : bool) (n : Z) : string :=
  (if s then "-" else "") ++ digits (n / 100) ++ "." ++
  digits (n / 10 mod 10) ++ digits (n mod 10).

Definition fmt2 (x : float) : string :=
  match x with
  | S754_nan => "nan"
  | S754_infinity s => if s then "-inf" else "inf"
  | S754_zero s => fixed2 s 0
  | S754_finite s m e => fixed2 s (hundredths m e)
  end.

Definition z_move (z : float) : string :=
  "G1 Z" ++ fmt2 z ++ " F300 ; Move to layer height" ++ nl.

Definition xy_move (p : Point2) : string :=
  "G1 X" ++ fmt2 (fst p) ++ " Y" ++ fmt2 (snd p) ++ " F1500 ; Move" ++ nl.

(** The file object: what has been written so far, one entry per call of
    [write], latest last. *)
Definition File : Type := list string.

Definition write (gcode_file : File) (s : string) : File :=
  (gcode_file ++ [s])%list.

(** The body of [for layer in toolpaths], on the file and the height [z]. *)
Definition toolpath_step (layer_height : float) (st : File * float)
    (layer : Toolpath) : File * float :=
  let '(gcode_file, z) := st in
  let z := (z + layer_height)%f64 in
  let gcode_file := write gcode_file (z_move z) in
  let gcode_file := fold_left (fun f p => write f (xy_move p)) layer gcode_file in
  (gcode_file, z).

(** The calls of [write] between [open(output_file, 'w')], which starts from
    an empty file, and the end of the [with] block. *)
Definition gcode_writes (toolpaths : list Toolpath) (layer_height : float)
    : File :=
  let gcode_file : File := [] in
  let gcode_file := write gcode_file ("G21 ; Set units to mm" ++ nl) in
  let gcode_file := write gcode_file ("G90 ; Absolute positioning" ++ nl) in
  let gcode_file := write gcode_file ("M104 S200 ; Set extruder temperature" ++ nl) in
  let gcode_file := write gcode_file ("M140 S60 ; Set bed temperature" ++ nl) in
  let gcode_file := write gcode_file ("M190 S60 ; Wait for bed temperature" ++ nl) in
  let gcode_file := write gcode_file ("M109 S200 ; Wait for extruder temperature" ++ nl) in
  let z := F64.of_Z 0 in
  let '(gcode_file, z) :=
    fold_left (toolpath_step layer_height) toolpaths (gcode_file, z) in
  let gcode_file := write gcode_file ("M104 S0 ; Turn off extruder" ++ nl) in
  let gcode_file := write gcode_file ("M140 S0 ; Turn off bed" ++ nl) in
  let gcode_file := write gcode_file ("M84 ; Disable motors" ++ nl) in
  gcode_file.

(** The command stream in the words of its description: the six lines of
    the preamble, then for the toolpath of index [i] one Z move to the
    height reached after [i + 1] additions of the layer height to 0 and one
    XY move per point, then the three lines of the postamble. *)
Definition preamble : list string :=
  [ "G21 ; Set units to mm" ++ nl;
    "G90 ; Absolute positioning" ++ nl;
    "M104 S200 ; Set extruder temperature" ++ nl;
    "M140 S60 ; Set bed temperature" ++ nl;
    "M190 S60 ; Wait for bed temperature" ++ nl;
    "M109 S200 ; Wait for extruder temperature" ++ nl ].

Definition postamble : list string :=
  [ "M104 S0 ; Turn off extruder" ++ nl;
    "M140 S0 ; Turn off bed" ++ nl;
    "M84 ; Disable motors" ++ nl ].

Definition running_height (layer_height : float) (k : nat) : float :=
  swept_height (F64.of_Z 0) layer_height k.

Definition layer_block (height : float) (layer : Toolpath) : list string :=
  z_move height :: map xy_move layer.

Definition indexed {A : Type} (l : list A) : list (nat * A) :=
  combine (seq 0 (length l)) l.

Definition gcode_body (toolpaths : list Toolpath) (layer_height : float)
    : list string :=
  concat (map (fun it => layer_block (running_height layer_height (S (fst it)))
                                     (snd it))
              (indexed toolpaths)).

(** The lines the loop writes from the height [z] on. *)
Fixpoint body_from (layer_height z : float) (toolpaths : list Toolpath)
    : list string :=
  match toolpaths with
  | [] => []
  | layer :: rest =>
      let z := (z + layer_height)%f64 in
      (layer_block z layer ++ body_from layer_height z rest)%list
  end.

(** The height of the toolpath of index [i] as the product [(i + 1) * h]. *)
Definition product_height (layer_height : float) (i : nat) : float :=
  (F64.of_Z (Z.of_nat (S i)) * layer_height)%f64.

(** Decimal digits, and the sign a float prints with. *)
Definition is_digit (c : ascii) : bool :=
  ((48 <=? nat_of_ascii c) && (nat_of_ascii c <=? 57))%nat.

Fixpoint all_digits (s : string) : bool :=
  match s with
  | EmptyString => true
  | String c rest => is_digit c && all_digits rest
  end.

Definition sign_of (x : float) : string :=
  match x with
  | S754_zero true | S754_finite true _ _ | S754_infinity true => "-"
  | _ => ""
  end.

(** Seven toolpaths without points, and the layer height 0.025. *)
Definition seven_empty_toolpaths : list Toolpath := repeat [] 7.

(** The files by name, and [generate_gcode]: the named file is replaced by
    the text written. *)
Definition FileSystem : Type := string -> option string.

Definition generate_gcode (toolpaths : list Toolpath) (layer_height : float)
    (output_file : string) (fs : FileSystem) : FileSystem :=
  fun name =>
    if String.eqb name output_file
    then Some (String.concat "" (gcode_writes toolpaths layer_height))
    else fs name.

(** The three stages in a row, as the script runs them on a loaded mesh. *)
Definition pipeline (fuel : nat) (mesh_data : Mesh) (layer_height : float)
    (output_file : string) (fs : FileSystem) : result FileSystem :=
  match slice_model fuel mesh_data layer_height with
  | Ok layers =>
      let toolpaths := generate_toolpaths layers in
      Ok (generate_gcode toolpaths layer_height output_file fs)
  | ValueError => ValueError
  | OutOfFuel => OutOfFuel
  end.

Local Close Scope string_scope.

(** ** Notions for the further properties *)

(** The number of points an edge gives, from how its two ends compare with
    the plane: [Lt] below, [Eq] on it, [Gt] above. *)
Definition edge_count (c1 c2 : comparison) : nat :=
  match c1, c2 with
  | Eq, Eq => 2
  | Lt, Eq | Lt, Gt | Eq, Lt | Gt, Lt => 1
  | _, _ => 0
  end.

(** The same triangle with its vertices listed from the second one on, and
    with the last two exchanged. *)
Definition rotate_vertices (t : Triangle) : Triangle :=
  mkTriangle (tv1 t) (tv2 t) (tv0 t).

Definition flip_vertices (t : Triangle) : Triangle :=
  mkTriangle (tv0 t) (tv2 t) (tv1 t).

(** No z-coordinate of the triangle is NaN. *)
Definition z_no_nan (t : Triangle) : Prop :=
  F64.is_nan (vz (tv0 t)) = false /\
  F64.is_nan (vz (tv1 t)) = false /\
  F64.is_nan (vz (tv2 t)) = false.

(** No z-coordinate of the mesh is NaN; some is. *)
Definition mesh_no_nan (mesh_data : Mesh) : Prop :=
  Forall (fun z => F64.is_nan z = false) (mesh_z mesh_data).

Definition mesh_has_nan (mesh_data : Mesh) : Prop :=
  Exists (fun z => F64.is_nan z = true) (mesh_z mesh_data).

(** A mesh with a vertex whose height is NaN. *)
Definition nan_mesh : Mesh :=
  [mkTriangle (vertex_Z 0 0 0)
              (mkVertex (F64.of_Z 1) (F64.of_Z 0) S754_nan)
              (vertex_Z 0 1 1)].

(** The lines that are Z moves and the ones that are XY moves, and the
    number of line ends in a text. *)
Fixpoint starts_with (start line : string) {struct start} : bool :=
  match start, line with
  | EmptyString, _ => true
  | String a start', String b line' => Ascii.eqb a b && starts_with start' line'
  | String _ _, EmptyString => false
  end.

Definition is_z_move (line : string) : bool := starts_with "G1 Z" line.

Definition is_xy_move (line : string) : bool := starts_with "G1 X" line.

Fixpoint count_nl (s : string) : nat :=
  match s with
  | EmptyString => 0
  | String c rest =>
      (if Ascii.eqb c "010"%char then 1 else 0) + count_nl rest
  end.

(** One line: a text without line end followed by the line end. *)
Definition one_line (s : string) : Prop :=
  exists body, s = (body ++ nl)%string /\ count_nl body = 0%nat.

(** * Properties *)

(** ** The order of binary64 values *)

Module F64Facts.

Ltac compare_cases :=
  change PosDef.Pos.compare_cont with Pos.compare_cont in *;
  change (Pos.compare_cont Eq) with Pos.compare in *;
  repeat match goal with
  | H : context [Z.compare ?a ?b] |- _ =>
      let E := fresh "E" in destruct (Z.compare_spec a b) as [E|E|E]
  | |- context [Z.compare ?a ?b] =>
      let E := fresh "E" in destruct (Z.compare_spec a b) as [E|E|E]
  | H : context [Pos.compare ?a ?b] |- _ =>
      let E := fresh "E" in destruct (Pos.compare_spec a b) as [E|E|E]
  | |- context [Pos.compare ?a ?b] =>
      let E := fresh "E" in destruct (Pos.compare_spec a b) as [E|E|E]
  end.

Lemma compare_antisym a b c :
  SFcompare a b = Some c -> SFcompare b a = Some (CompOpp c).
Proof.
  destruct a as [sa|sa| |sa ma ea], b as [sb|sb| |sb mb eb]; cbn;
    try discriminate;
    try (destruct sa); try (destruct sb);
    intros [= <-]; try reflexivity;
    compare_cases; subst; cbn; try reflexivity; lia.
Qed.

Lemma compare_total a b :
  F64.is_nan a = false -> F64.is_nan b = false ->
  exists c, SFcompare a b = Some c.
Proof.
  destruct a, b; cbn; intros; try discriminate; eexists; reflexivity.
Qed.

Lemma compare_nan_l a b c : SFcompare a b = Some c -> F64.is_nan a = false.
Proof. destruct a; cbn; [reflexivity..|discriminate|reflexivity]. Qed.

Lemma compare_nan_r a b c : SFcompare a b = Some c -> F64.is_nan b = false.
Proof. destruct a, b; cbn; try discriminate; reflexivity. Qed.

Lemma compare_trans a b c c1 c2 c3 :
  SFcompare a b = Some c1 -> SFcompare b c = Some c2 ->
  F64.comp_trans c1 c2 = Some c3 -> SFcompare a c = Some c3.
Proof.
  destruct a as [sa|sa| |sa ma ea], b as [sb|sb| |sb mb eb],
           c as [sc|sc| |sc mc ec]; cbn; try discriminate;
    try (destruct sa); try (destruct sb); try (destruct sc);
    intros [= <-] [= <-]; cbn; try discriminate;
    try (intros [= <-]; reflexivity);
    compare_cases; subst; cbn; try discriminate;
    try (intros [= <-]; reflexivity); try lia.
Qed.

(** The three tests of the source, read off [SFcompare]. *)
Lemma ltb_compare a b : (a <? b)%f64 = true <-> SFcompare a b = Some Lt.
Proof.
  unfold F64.ltb, SFltb. destruct (SFcompare a b) as [[]|]; split; congruence.
Qed.

Lemma eqb_compare a b : (a == b)%f64 = true <-> SFcompare a b = Some Eq.
Proof.
  unfold F64.eqb, SFeqb. destruct (SFcompare a b) as [[]|]; split; congruence.
Qed.

Lemma leb_compare a b :
  (a <=? b)%f64 = true <-> SFcompare a b = Some Lt \/ SFcompare a b = Some Eq.
Proof.
  unfold F64.leb, SFleb.
  destruct (SFcompare a b) as [[]|]; split; intros; intuition congruence.
Qed.

Lemma ltb_leb a b : (a <? b)%f64 = true -> (a <=? b)%f64 = true.
Proof. rewrite ltb_compare, leb_compare; tauto. Qed.

Lemma ltb_not_leb a b : (a <? b)%f64 = true -> (b <=? a)%f64 = false.
Proof.
  rewrite ltb_compare. intros H%compare_antisym.
  unfold F64.leb, SFleb. now rewrite H.
Qed.

Lemma ltb_asym a b : (a <? b)%f64 = true -> (b <? a)%f64 = false.
Proof.
  rewrite ltb_compare. intros H%compare_antisym.
  unfold F64.ltb, SFltb. now rewrite H.
Qed.

Lemma ltb_not_eqb a b : (a <? b)%f64 = true -> (a == b)%f64 = false.
Proof.
  rewrite ltb_compare. intros H. unfold F64.eqb, SFeqb. now rewrite H.
Qed.

Lemma eqb_sym a b : (a == b)%f64 = (b == a)%f64.
Proof.
  unfold F64.eqb, SFeqb.
  destruct (SFcompare a b) as [c|] eqn:Hab.
  - apply compare_antisym in Hab. rewrite Hab. now destruct c.
  - destruct (SFcompare b a) as [c|] eqn:Hba; [|reflexivity].
    apply compare_antisym in Hba. congruence.
Qed.

Lemma eqb_refl a : F64.is_nan a = false -> (a == a)%f64 = true.
Proof.
  intros Ha. destruct (compare_total a a Ha Ha) as [c Hc].
  pose proof (compare_antisym _ _ _ Hc) as Hc'.
  apply eqb_compare. destruct c; cbn in Hc'; congruence.
Qed.

Lemma ltb_leb_trans a b c :
  (a <? b)%f64 = true -> (b <=? c)%f64 = true -> (a <? c)%f64 = true.
Proof.
  rewrite !ltb_compare, leb_compare. intros Hab [Hbc|Hbc];
    eapply compare_trans; eauto.
Qed.

Lemma leb_trans a b c :
  (a <=? b)%f64 = true -> (b <=? c)%f64 = true -> (a <=? c)%f64 = true.
Proof.
  rewrite !leb_compare.
  intros [Hab|Hab] [Hbc|Hbc];
    [left|left|left|right]; eapply compare_trans; eauto.
Qed.

Lemma ltb_total a b :
  F64.is_nan a = false -> F64.is_nan b = false -> (a == b)%f64 = false ->
  (a <? b)%f64 = true \/ (b <? a)%f64 = true.
Proof.
  intros Ha Hb. destruct (compare_total a b Ha Hb) as [c Hc].
  rewrite !ltb_compare. unfold F64.eqb, SFeqb. rewrite Hc.
  apply compare_antisym in Hc as Hc'.
  destruct c; cbn in Hc'; [discriminate|now left|now right].
Qed.

Lemma not_ltb_leb a b :
  F64.is_nan a = false -> F64.is_nan b = false ->
  (a <? b)%f64 = false -> (b <=? a)%f64 = true.
Proof.
  intros Ha Hb. destruct (compare_total a b Ha Hb) as [c Hc].
  apply compare_antisym in Hc as Hc'.
  unfold F64.ltb, SFltb, F64.leb, SFleb. rewrite Hc, Hc'.
  now destruct c.
Qed.

Lemma ltb_nan_l a b : (a <? b)%f64 = true -> F64.is_nan a = false.
Proof. rewrite ltb_compare. apply compare_nan_l. Qed.

Lemma ltb_nan_r a b : (a <? b)%f64 = true -> F64.is_nan b = false.
Proof. rewrite ltb_compare. apply compare_nan_r. Qed.

Lemma eqb_leb a b : (a == b)%f64 = true -> (a <=? b)%f64 = true.
Proof. rewrite eqb_compare, leb_compare; tauto. Qed.

Lemma ltb_trans a b c :
  (a <? b)%f64 = true -> (b <? c)%f64 = true -> (a <? c)%f64 = true.
Proof. rewrite !ltb_compare. intros; eapply compare_trans; eauto. Qed.

Lemma ltb_eqb_trans a b c :
  (a <? b)%f64 = true -> (b == c)%f64 = true -> (a <? c)%f64 = true.
Proof.
  rewrite !ltb_compare, eqb_compare. intros; eapply compare_trans; eauto.
Qed.

Lemma eqb_ltb_trans a b c :
  (a == b)%f64 = true -> (b <? c)%f64 = true -> (a <? c)%f64 = true.
Proof.
  rewrite !ltb_compare, eqb_compare. intros; eapply compare_trans; eauto.
Qed.

Lemma eqb_trans a b c :
  (a == b)%f64 = true -> (b == c)%f64 = true -> (a == c)%f64 = true.
Proof. rewrite !eqb_compare. intros; eapply compare_trans; eauto. Qed.

Lemma eqb_not_ltb a b : (a == b)%f64 = true -> (a <? b)%f64 = false.
Proof.
  rewrite eqb_compare. intros H. unfold F64.ltb, SFltb. now rewrite H.
Qed.

(** *** Subtraction does not cancel unequal numbers *)

Lemma digits2_lower m : 2 ^ (Zpos (digits2_pos m) - 1) <= Zpos m.
Proof.
  induction m as [m IH|m IH|]; cbn [digits2_pos].
  - rewrite Pos2Z.inj_succ.
    replace (Z.succ (Zpos (digits2_pos m)) - 1)
      with (Z.succ (Zpos (digits2_pos m) - 1)) by lia.
    rewrite Z.pow_succ_r by lia. lia.
  - rewrite Pos2Z.inj_succ.
    replace (Z.succ (Zpos (digits2_pos m)) - 1)
      with (Z.succ (Zpos (digits2_pos m) - 1)) by lia.
    rewrite Z.pow_succ_r by lia. lia.
  - cbn. lia.
Qed.

Lemma digits2_upper m : Zpos m < 2 ^ Zpos (digits2_pos m).
Proof.
  induction m as [m IH|m IH|]; cbn [digits2_pos].
  - rewrite Pos2Z.inj_succ, Z.pow_succ_r by lia. lia.
  - rewrite Pos2Z.inj_succ, Z.pow_succ_r by lia. lia.
  - cbn. lia.
Qed.

Lemma shr_1_m mrs : 0 <= shr_m mrs -> shr_m (shr_1 mrs) = shr_m mrs / 2.
Proof.
  destruct mrs as [m r s]. cbn [shr_m shr_1].
  destruct m as [|[p|p|]|p]; cbn [shr_m]; intros H; try lia.
  - reflexivity.
  - rewrite Pos2Z.inj_xI. apply Z.div_unique with 1; lia.
  - rewrite Pos2Z.inj_xO. apply Z.div_unique with 0; lia.
  - reflexivity.
Qed.

Lemma pow2_xO p : 2 ^ Zpos p~0 = 2 ^ Zpos p * 2 ^ Zpos p.
Proof. rewrite Pos2Z.inj_xO, <- Z.pow_add_r by lia. f_equal. lia. Qed.

Lemma pow2_xI p : 2 ^ Zpos p~1 = 2 * (2 ^ Zpos p * 2 ^ Zpos p).
Proof.
  rewrite Pos2Z.inj_xI, <- Z.pow_add_r by lia.
  replace (2 * Zpos p + 1) with (Z.succ (Zpos p + Zpos p)) by lia.
  now rewrite Z.pow_succ_r by lia.
Qed.

Lemma iter_shr_1_m p : forall mrs,
  0 <= shr_m mrs ->
  shr_m (iter_pos shr_1 p mrs) = shr_m mrs / 2 ^ Zpos p.
Proof.
  induction p as [p IH|p IH|]; intros mrs H; cbn [iter_pos].
  - assert (H1 : 0 <= shr_m (shr_1 mrs))
      by (rewrite shr_1_m by lia; apply Z.div_pos; lia).
    assert (H2 : 0 <= shr_m (iter_pos shr_1 p (shr_1 mrs)))
      by (rewrite IH by lia; apply Z.div_pos; lia).
    rewrite IH, IH, shr_1_m by lia.
    rewrite !Z.div_div by lia. now rewrite pow2_xI.
  - assert (H2 : 0 <= shr_m (iter_pos shr_1 p mrs))
      by (rewrite IH by lia; apply Z.div_pos; lia).
    rewrite IH, IH by lia.
    rewrite !Z.div_div by lia. now rewrite pow2_xO.
  - rewrite shr_1_m by lia. now rewrite Z.pow_1_r.
Qed.

Lemma shr_record_of_loc_m m l : shr_m (shr_record_of_loc m l) = m.
Proof. destruct l as [|[]]; reflexivity. Qed.

(** The right shifts of rounding keep a positive mantissa positive. *)
Lemma shr_fexp_pos m e l :
  0 < m -> F64.emin <= e ->
  0 < shr_m (fst (shr_fexp F64.prec F64.emax m e l)) /\
  F64.emin <= snd (shr_fexp F64.prec F64.emax m e l).
Proof.
  intros Hm He. unfold shr_fexp, shr.
  destruct m as [|p|p]; try lia. cbn [Zdigits2].
  pose proof (digits2_lower p) as Hlow.
  set (d := Zpos (digits2_pos p)) in *.
  assert (Hd : 0 < d) by (unfold d; lia).
  unfold fexp. fold F64.emin.
  destruct (Z.max (d + e - F64.prec) F64.emin - e) as [|q|q] eqn:Hn; cbn [fst snd].
  - rewrite shr_record_of_loc_m. lia.
  - rewrite iter_shr_1_m by (rewrite shr_record_of_loc_m; lia).
    rewrite shr_record_of_loc_m. split; [|lia].
    assert (Hq : Zpos q <= d - 1) by (unfold F64.prec in *; lia).
    apply Z.div_str_pos. split; [apply Z.pow_pos_nonneg; lia|].
    transitivity (2 ^ (d - 1)); [apply Z.pow_le_mono_r; lia|exact Hlow].
  - rewrite shr_record_of_loc_m. lia.
Qed.

Lemma round_nearest_even_pos m l : 0 < m -> 0 < round_nearest_even m l.
Proof.
  intros H. unfold round_nearest_even.
  destruct l as [|[]]; try lia. destruct (Z.even m); lia.
Qed.

Lemma binary_round_aux_nonzero s m e l :
  0 < m -> F64.emin <= e ->
  F64.nonzero (binary_round_aux F64.prec F64.emax s m e l) = true.
Proof.
  intros Hm He. unfold binary_round_aux.
  destruct (shr_fexp_pos m e l Hm He) as [H1 H1'].
  destruct (shr_fexp F64.prec F64.emax m e l) as [mrs' e']. cbn [fst snd] in *.
  pose proof (round_nearest_even_pos (shr_m mrs') (loc_of_shr_record mrs') H1)
    as H2.
  destruct (shr_fexp_pos _ e' loc_Exact H2 H1') as [H3 _].
  destruct (shr_fexp F64.prec F64.emax _ e' loc_Exact) as [mrs'' e''].
  cbn [fst snd] in *.
  destruct (shr_m mrs'') as [|q|q]; try lia.
  now destruct (e'' <=? F64.emax - F64.prec).
Qed.

Lemma binary_normalize_nonzero m e :
  m <> 0 -> F64.emin <= e ->
  F64.nonzero (binary_normalize F64.prec F64.emax m e false) = true.
Proof.
  intros Hm He. unfold binary_normalize.
  destruct m as [|p|p]; try lia; unfold binary_round;
    destruct (shl_align p e _) as [mz ez] eqn:Hal;
    apply binary_round_aux_nonzero; try lia;
    unfold shl_align in Hal;
    destruct (fexp F64.prec F64.emax (Zpos (digits2_pos p) + e) - e) eqn:Hn;
    inversion Hal; subst; try lia; unfold fexp; fold F64.emin; lia.
Qed.

Lemma iter_xO_value m d : Zpos (Pos.iter xO m d) = Zpos m * 2 ^ Zpos d.
Proof.
  induction d as [|d IH] using Pos.peano_ind.
  - cbn [Pos.iter]. rewrite Z.pow_1_r. lia.
  - rewrite Pos.iter_succ, Pos2Z.inj_xO, IH, Pos2Z.inj_succ.
    rewrite Z.pow_succ_r by lia. lia.
Qed.

Lemma shl_align_value m e e' :
  e' <= e -> Zpos (fst (shl_align m e e')) = Zpos m * 2 ^ (e - e').
Proof.
  intros H. unfold shl_align.
  destruct (e' - e) as [|d|d] eqn:Hd; cbn [fst]; try lia.
  - replace (e - e') with 0 by lia. rewrite Z.pow_0_r. lia.
  - rewrite iter_xO_value. f_equal. f_equal. lia.
Qed.

Lemma digits2_unique m a b :
  0 <= a -> 0 <= b ->
  2 ^ (a - 1) <= m < 2 ^ a -> 2 ^ (b - 1) <= m < 2 ^ b -> a = b.
Proof.
  intros Ha Hb [La Ua] [Lb Ub].
  destruct (Z.lt_trichotomy a b) as [H|[H|H]]; [|exact H|].
  - assert (2 ^ a <= 2 ^ (b - 1)) by (apply Z.pow_le_mono_r; lia). lia.
  - assert (2 ^ b <= 2 ^ (a - 1)) by (apply Z.pow_le_mono_r; lia). lia.
Qed.

Lemma bounded_canonical m e :
  bounded F64.prec F64.emax m e = true ->
  e = Z.max (Zpos (digits2_pos m) + e - F64.prec) F64.emin.
Proof.
  unfold bounded, canonical_mantissa, fexp. fold F64.emin.
  intros [H _]%andb_true_iff. apply Z.eqb_eq in H. lia.
Qed.

(** Two canonical mantissas of different exponents stay different once
    aligned to the smaller exponent. *)
Lemma aligned_lt_ne mx ex my ey :
  bounded F64.prec F64.emax mx ex = true -> bounded F64.prec F64.emax my ey = true ->
  ex < ey -> Zpos mx <> Zpos my * 2 ^ (ey - ex).
Proof.
  intros Bx By Hlt Heq.
  apply bounded_canonical in Bx, By.
  pose proof (digits2_lower mx) as Lx. pose proof (digits2_upper mx) as Ux.
  pose proof (digits2_lower my) as Ly. pose proof (digits2_upper my) as Uy.
  set (dx := Zpos (digits2_pos mx)) in *.
  set (dy := Zpos (digits2_pos my)) in *.
  assert (Hdx : 0 < dx) by (unfold dx; lia).
  assert (Hdy : 0 < dy) by (unfold dy; lia).
  assert (Hk : 0 < 2 ^ (ey - ex)) by (apply Z.pow_pos_nonneg; lia).
  assert (Hd : dx = dy + (ey - ex)).
  { apply (digits2_unique (Zpos mx)); try lia. rewrite Heq. split.
    - replace (dy + (ey - ex) - 1) with ((dy - 1) + (ey - ex)) by lia.
      rewrite Z.pow_add_r by lia. nia.
    - rewrite Z.pow_add_r by lia. nia. }
  lia.
Qed.

Lemma aligned_ne mx ex my ey :
  bounded F64.prec F64.emax mx ex = true -> bounded F64.prec F64.emax my ey = true ->
  ~ (ex = ey /\ mx = my) ->
  Zpos (fst (shl_align mx ex (Z.min ex ey))) <>
  Zpos (fst (shl_align my ey (Z.min ex ey))).
Proof.
  intros Bx By Hne. rewrite !shl_align_value by lia.
  destruct (Z.lt_trichotomy ex ey) as [H|[H|H]].
  - rewrite Z.min_l by lia. rewrite Z.sub_diag, Z.pow_0_r, Z.mul_1_r.
    now apply aligned_lt_ne.
  - subst ey. rewrite Z.min_id, Z.sub_diag, Z.pow_0_r, !Z.mul_1_r.
    intros [= E]. apply Hne. now split.
  - rewrite Z.min_r by lia. rewrite Z.sub_diag, Z.pow_0_r, Z.mul_1_r.
    intros E. symmetry in E. revert E. now apply aligned_lt_ne.
Qed.

Lemma compare_finite_ne s mx ex my ey c :
  SFcompare (S754_finite s mx ex) (S754_finite s my ey) = Some c ->
  c <> Eq -> ~ (ex = ey /\ mx = my).
Proof.
  intros Hc Hne [-> ->]. cbn in Hc.
  rewrite Z.compare_refl in Hc.
  change (Pos.compare_cont Eq my my) with (Pos.compare my my) in Hc.
  rewrite Pos.compare_refl in Hc. destruct s; cbn in Hc; congruence.
Qed.

(** The difference of two valid floats that do not compare equal is not a
    zero. *)
Lemma sub_nonzero x y c :
  F64.valid x = true -> F64.valid y = true ->
  SFcompare x y = Some c -> c <> Eq ->
  F64.nonzero (x - y)%f64 = true.
Proof.
  unfold F64.valid, F64.sub.
  destruct x as [sx|sx| |sx mx ex], y as [sy|sy| |sy my ey];
    cbn [valid_binary]; intros Vx Vy Hc Hne;
    try discriminate Hc; try reflexivity.
  - cbn in Hc. congruence.
  - destruct sx, sy; cbn in Hc; try reflexivity; congruence.
  - cbn [SFsub]. apply binary_normalize_nonzero.
    + pose proof (aligned_ne mx ex my ey Vx Vy) as Hal.
      destruct sx, sy; cbn [cond_Zopp]; try lia.
      * specialize (Hal (compare_finite_ne _ _ _ _ _ _ Hc Hne)). lia.
      * specialize (Hal (compare_finite_ne _ _ _ _ _ _ Hc Hne)). lia.
    + apply bounded_canonical in Vx, Vy. lia.
Qed.

(** The guard of the interpolation branch separates its two heights. *)
Lemma crosses_lt z1 z2 z :
  crosses z1 z2 z = true -> (z1 <? z2)%f64 = true \/ (z2 <? z1)%f64 = true.
Proof.
  unfold crosses. intros [H|H]%orb_true_iff;
    apply andb_true_iff in H as [H1 H2]; [left|right];
    eapply ltb_leb_trans; eauto.
Qed.

End F64Facts.

(** ** The arithmetic at work *)

(** The sum of 0.1 and 0.2 is above 0.3; a tie of the format [.2f] goes to
    the even digit; a negative number that rounds to zero keeps its sign. *)
Example tenth_plus_fifth :
  (F64.dec 3 10 <? F64.dec 1 10 + F64.dec 2 10)%f64 = true.
Proof. vm_compute; reflexivity. Qed.

Example fmt2_ties_to_even :
  fmt2 (F64.dec 1 8) = "0.12"%string /\ fmt2 (F64.dec 3 8) = "0.38"%string /\
  fmt2 (F64.dec (-1) 1000) = "-0.00"%string /\
  fmt2 (F64.dec 123456789 1000) = "123456.79"%string.
Proof. repeat split; vm_compute; reflexivity. Qed.

(** ** Properties of [calculate_plane_intersection] *)

Lemma edge_step_app vertices z acc i :
  edge_step vertices z acc i =
    acc ++ edge_points (vertices i) (vertices ((i + 1) mod 3)%nat) z.
Proof.
  unfold edge_step, edge_points.
  destruct ((_ == z) && (_ == z))%f64; [reflexivity|].
  destruct (crosses _ _ z); [reflexivity|].
  now rewrite app_nil_r.
Qed.

Lemma edge_points_emits p1 p2 z : edge_emits p1 p2 z (edge_points p1 p2 z).
Proof.
  unfold edge_points.
  destruct ((vz p1 == z) && (vz p2 == z))%f64 eqn:Hplane.
  - apply andb_true_iff in Hplane as [H1 H2]. now apply emits_in_plane.
  - destruct (crosses (vz p1) (vz p2) z) eqn:Hc; unfold crosses in Hc.
    + apply emits_crossing; [assumption|].
      apply orb_true_iff in Hc as [H|H]; apply andb_true_iff in H; tauto.
    + apply orb_false_iff in Hc as [Ha Hb].
      apply emits_nothing; [assumption| |];
        intros [H1 H2]; rewrite H1, H2 in *; discriminate.
Qed.

Lemma edge_points_length p1 p2 z : (length (edge_points p1 p2 z) <= 2)%nat.
Proof.
  unfold edge_points.
  destruct (_ && _)%bool; [simpl; lia|].
  destruct (crosses _ _ _); simpl; lia.
Qed.

Lemma calculate_plane_intersection_edges triangle z :
  calculate_plane_intersection triangle z =
    edge_points (tv0 triangle) (tv1 triangle) z ++
    edge_points (tv1 triangle) (tv2 triangle) z ++
    edge_points (tv2 triangle) (tv0 triangle) z.
Proof.
  unfold calculate_plane_intersection; cbn [seq fold_left].
  rewrite !edge_step_app, <- app_assoc.
  reflexivity.
Qed.

(** C1: the three edges are processed in order; each emits both endpoints
    when it lies in the plane, the single interpolated point when the plane
    crosses it, and nothing otherwise; the result is the concatenation of
    the three emissions, between 0 and 6 points, duplicates kept: a triangle
    lying in the plane gives each of its vertices twice. *)
Theorem plane_intersection_per_edge :
  (forall (triangle : Triangle) (z : float),
     exists e0 e1 e2 : list Point2,
       calculate_plane_intersection triangle z = e0 ++ e1 ++ e2 /\
       edge_emits (tv0 triangle) (tv1 triangle) z e0 /\
       edge_emits (tv1 triangle) (tv2 triangle) z e1 /\
       edge_emits (tv2 triangle) (tv0 triangle) z e2 /\
       (length (calculate_plane_intersection triangle z) <= 6)%nat) /\
  calculate_plane_intersection flat_triangle (F64.of_Z 0) =
    [ (F64.of_Z 0, F64.of_Z 0); (F64.of_Z 1, F64.of_Z 0);
      (F64.of_Z 1, F64.of_Z 0); (F64.of_Z 0, F64.of_Z 1);
      (F64.of_Z 0, F64.of_Z 1); (F64.of_Z 0, F64.of_Z 0) ].
Proof.
  split; [|vm_compute; reflexivity].
  intros triangle z.
  exists (edge_points (tv0 triangle) (tv1 triangle) z),
         (edge_points (tv1 triangle) (tv2 triangle) z),
         (edge_points (tv2 triangle) (tv0 triangle) z).
  rewrite calculate_plane_intersection_edges.
  repeat split; try apply edge_points_emits.
  rewrite !length_app.
  pose proof (edge_points_length (tv0 triangle) (tv1 triangle) z).
  pose proof (edge_points_length (tv1 triangle) (tv2 triangle) z).
  pose proof (edge_points_length (tv2 triangle) (tv0 triangle) z).
  lia.
Qed.

Lemma fmin_cases a b : fmin a b = a \/ fmin a b = b.
Proof. unfold fmin. destruct (_ || _)%bool; auto. Qed.

Lemma fmax_cases a b : fmax a b = a \/ fmax a b = b.
Proof. unfold fmax. destruct (_ || _)%bool; auto. Qed.

Lemma fmin_not_nan a b :
  F64.is_nan (fmin a b) = false ->
  F64.is_nan a = false /\ F64.is_nan b = false.
Proof.
  unfold fmin. destruct (F64.is_nan a) eqn:Ha; cbn [orb].
  - congruence.
  - destruct (a <=? b)%f64 eqn:Hab.
    + intros _. split; [reflexivity|].
      apply F64Facts.leb_compare in Hab as [H|H];
        eapply F64Facts.compare_nan_r; eauto.
    + auto.
Qed.

Lemma fmax_not_nan a b :
  F64.is_nan (fmax a b) = false ->
  F64.is_nan a = false /\ F64.is_nan b = false.
Proof.
  unfold fmax. destruct (F64.is_nan a) eqn:Ha; cbn [orb].
  - congruence.
  - destruct (b <=? a)%f64 eqn:Hab.
    + intros _. split; [reflexivity|].
      apply F64Facts.leb_compare in Hab as [H|H];
        eapply F64Facts.compare_nan_l; eauto.
    + auto.
Qed.




(** The interpolation branch is the one taken whenever its guard holds: the
    in-plane test before it fails then. *)
Lemma crosses_not_in_plane z1 z2 z :
  crosses z1 z2 z = true -> ((z1 == z) && (z2 == z))%f64 = false.
Proof.
  unfold crosses. intros [H|H]%orb_true_iff;
    apply andb_true_iff in H as [H1 H2];
    rewrite (F64Facts.ltb_not_eqb _ _ H1); [reflexivity|apply andb_false_r].
Qed.

Lemma crosses_edge_points p1 p2 z :
  crosses (vz p1) (vz p2) z = true ->
  edge_points p1 p2 z = [xy (interpolate p1 p2 z)].
Proof.
  intros H. unfold edge_points.
  now rewrite (crosses_not_in_plane _ _ _ H), H.
Qed.




(** ** The guard of the division *)

(** C8: on every edge of every triangle, whenever the guard of the
    interpolation branch holds the two ends of the edge have different
    z-coordinates, the branch taken is the interpolation one, and the
    divisor [z2 - z1] of binary64 numbers is neither a zero nor NaN: the
    division is never one by zero. *)
Theorem interpolation_guard_excludes_equal_heights
    (triangle : Triangle) (z : float) (i : nat) :
  (i < 3)%nat ->
  let p1 := reshape33 triangle i in
  let p2 := reshape33 triangle ((i + 1) mod 3)%nat in
  crosses (vz p1) (vz p2) z = true ->
  (vz p1 == vz p2)%f64 = false /\ vz p1 <> vz p2 /\
  edge_step (reshape33 triangle) z [] i = [xy (interpolate p1 p2 z)] /\
  (F64.valid (vz p1) = true -> F64.valid (vz p2) = true ->
   F64.nonzero (vz p2 - vz p1)%f64 = true).
Proof.
  intros _ p1 p2 Hc.
  pose proof (F64Facts.crosses_lt _ _ _ Hc) as Hlt.
  assert (Hne : (vz p1 == vz p2)%f64 = false).
  { destruct Hlt as [H|H].
    - now apply F64Facts.ltb_not_eqb.
    - rewrite F64Facts.eqb_sym. now apply F64Facts.ltb_not_eqb. }
  split; [exact Hne|]. split; [|split].
  - intros Heq. fold p1 p2 in Heq. rewrite Heq in Hne.
    rewrite F64Facts.eqb_refl in Hne; [discriminate|].
    destruct Hlt as [H|H];
      [eapply F64Facts.ltb_nan_r | eapply F64Facts.ltb_nan_l]; exact H.
  - rewrite edge_step_app. cbn [app]. now apply crosses_edge_points.
  - intros V1 V2. destruct Hlt as [H|H]; apply F64Facts.ltb_compare in H.
    + apply F64Facts.compare_antisym in H.
      eapply F64Facts.sub_nonzero; eauto. discriminate.
    + eapply F64Facts.sub_nonzero; eauto. discriminate.
Qed.

Lemma interpolation_guard_witness :
  let t := integer_triangle in
  (vz (tv0 t) == vz (tv1 t))%f64 = false /\ vz (tv0 t) <> vz (tv1 t) /\
  edge_step (reshape33 t) (F64.of_Z 1) [] 0 =
    [xy (interpolate (tv0 t) (tv1 t) (F64.of_Z 1))] /\
  F64.nonzero (vz (tv1 t) - vz (tv0 t))%f64 = true.
Proof.
  intros t.
  destruct (interpolation_guard_excludes_equal_heights t (F64.of_Z 1) 0%nat)
    as (Hne & Hneq & Hstep & Hdiv); [lia | vm_compute; reflexivity |].
  repeat (split; [assumption|]).
  apply Hdiv; vm_compute; reflexivity.
Defined.

(** ** Properties of [slice_model] *)

Lemma fold_triangle_step z vectors acc :
  fold_left (triangle_step z) vectors acc =
    acc ++ filter (fun r => (length r =? 2)%nat)
                  (map (fun t => calculate_plane_intersection t z) vectors).
Proof.
  revert acc. induction vectors as [|t vectors IH]; intros acc; cbn [fold_left map filter].
  - now rewrite app_nil_r.
  - rewrite IH. unfold triangle_step.
    destruct (length (calculate_plane_intersection t z) =? 2)%nat.
    + now rewrite <- app_assoc.
    + reflexivity.
Qed.

Lemma slice_layer_filter vectors z :
  slice_layer vectors z =
    filter (fun r => (length r =? 2)%nat)
           (map (fun t => calculate_plane_intersection t z) vectors).
Proof. unfold slice_layer. now rewrite fold_triangle_step. Qed.

Lemma swept_height_shift z h k :
  swept_height (z + h)%f64 h k = swept_height z h (S k).
Proof. unfold swept_height. now rewrite Nat.iter_succ_r. Qed.

Lemma sweep_stops_zero z z_max h :
  sweep_stops z z_max h 0 <-> (z <=? z_max)%f64 = false.
Proof.
  unfold sweep_stops; cbn. split; [tauto|]. intros H; split; [|exact H].
  intros k Hk; lia.
Qed.

Lemma sweep_stops_succ z z_max h n :
  sweep_stops z z_max h (S n) <->
  (z <=? z_max)%f64 = true /\ sweep_stops (z + h)%f64 z_max h n.
Proof.
  unfold sweep_stops. split.
  - intros [Hle Hgt]. split; [apply (Hle 0%nat); lia|]. split.
    + intros k Hk. rewrite swept_height_shift. apply Hle; lia.
    + now rewrite swept_height_shift.
  - intros [H0 [Hle Hgt]]. split.
    + intros [|k] Hk; [exact H0|].
      rewrite <- swept_height_shift. apply Hle; lia.
    + now rewrite <- swept_height_shift.
Qed.

Lemma swept_layers_succ vectors z h n :
  swept_layers vectors z h (S n) =
    slice_layer vectors z :: swept_layers vectors (z + h)%f64 h n.
Proof.
  unfold swept_layers. cbn [seq map]. f_equal.
  rewrite <- seq_shift, map_map.
  apply map_ext. intros k. now rewrite swept_height_shift.
Qed.

Lemma slice_loop_stops vectors z_max h n :
  forall fuel z layers,
    sweep_stops z z_max h n -> (n < fuel)%nat ->
    slice_loop fuel vectors z_max h z layers =
      Ok (layers ++ swept_layers vectors z h n).
Proof.
  induction n as [|n IH]; intros [|fuel] z layers Hstop Hfuel; try lia.
  - apply sweep_stops_zero in Hstop. cbn [slice_loop]. rewrite Hstop.
    unfold swept_layers; cbn. now rewrite app_nil_r.
  - apply sweep_stops_succ in Hstop as [Hle Hstop]. cbn [slice_loop].
    rewrite Hle, (IH fuel _ _ Hstop) by lia.
    now rewrite swept_layers_succ, <- app_assoc.
Qed.


Lemma slice_loop_ok vectors z_max h :
  forall fuel z layers out,
    slice_loop fuel vectors z_max h z layers = Ok out ->
    exists n, (n < fuel)%nat /\ sweep_stops z z_max h n /\
              out = layers ++ swept_layers vectors z h n.
Proof.
  induction fuel as [|fuel IH]; intros z layers out; cbn [slice_loop].
  - discriminate.
  - destruct (z <=? z_max)%f64 eqn:Hle.
    + intros H. apply IH in H as (n & Hn & Hstop & ->).
      exists (S n). split; [lia|]. split.
      * apply sweep_stops_succ; auto.
      * now rewrite swept_layers_succ, <- app_assoc.
    + intros [= <-]. exists 0%nat. split; [lia|]. split.
      * now apply sweep_stops_zero.
      * unfold swept_layers; cbn. now rewrite app_nil_r.
Qed.

Lemma slice_loop_never_raises fuel vectors z_max h z layers :
  slice_loop fuel vectors z_max h z layers <> ValueError.
Proof.
  revert z layers. induction fuel as [|fuel IH]; intros z layers; cbn [slice_loop].
  - discriminate.
  - destruct (z <=? z_max)%f64; [apply IH|discriminate].
Qed.




(** C2: at each swept height every triangle of the mesh is intersected and
    its result is kept exactly when it has two points; every swept height
    gives one layer, empty or not, so there are as many layers as heights. *)
Theorem slice_model_keeps_two_point_results :
  (forall vectors z,
     slice_layer vectors z =
       filter (fun r => (length r =? 2)%nat)
              (map (fun t => calculate_plane_intersection t z) vectors)) /\
  (forall vectors z r,
     In r (slice_layer vectors z) <->
     exists t, In t vectors /\ calculate_plane_intersection t z = r /\
               length r = 2%nat) /\
  (forall mesh_data h z_min z_max n fuel,
     np_min (mesh_z mesh_data) = Some z_min ->
     np_max (mesh_z mesh_data) = Some z_max ->
     sweep_stops z_min z_max h n -> (n < fuel)%nat ->
     exists layers,
       slice_model fuel mesh_data h = Ok layers /\ length layers = n /\
       forall k, (k < n)%nat ->
         nth_error layers k =
           Some (slice_layer mesh_data (swept_height z_min h k))) /\
  (forall mesh_data h fuel layers,
     slice_model fuel mesh_data h = Ok layers ->
     exists z_min z_max,
       np_min (mesh_z mesh_data) = Some z_min /\
       np_max (mesh_z mesh_data) = Some z_max /\
       sweep_stops z_min z_max h (length layers)).
Proof.
  split; [exact slice_layer_filter|]. split; [|split].
  - intros vectors z r. rewrite slice_layer_filter, filter_In, in_map_iff.
    rewrite Nat.eqb_eq. split.
    + intros [(t & Ht & Hin) Hlen]. eauto.
    + intros (t & Hin & Ht & Hlen). eauto.
  - intros mesh_data h z_min z_max n fuel Hmin Hmax Hstop Hfuel.
    unfold slice_model. rewrite Hmin, Hmax.
    rewrite (slice_loop_stops _ _ _ n) by assumption. cbn [app].
    eexists. split; [reflexivity|]. unfold swept_layers. split.
    + now rewrite length_map, length_seq.
    + intros k Hk. rewrite nth_error_map, nth_error_seq.
      destruct (Nat.ltb_spec k n); [reflexivity|lia].
  - intros mesh_data h fuel layers. unfold slice_model.
    destruct (np_min (mesh_z mesh_data)) as [z_min|]; [|discriminate].
    destruct (np_max (mesh_z mesh_data)) as [z_max|]; [|discriminate].
    intros (n & _ & Hstop & ->)%slice_loop_ok.
    exists z_min, z_max. split; [reflexivity|]. split; [reflexivity|].
    cbn [app]; unfold swept_layers. now rewrite length_map, length_seq.
Qed.

Lemma slice_model_keeps_two_point_results_witness :
  exists layers,
    slice_model 4 unit_mesh (F64.dec 5 10) = Ok layers /\ length layers = 3%nat.
Proof.
  destruct slice_model_keeps_two_point_results as (_ & _ & Hruns & _).
  destruct (Hruns unit_mesh (F64.dec 5 10) (F64.of_Z 0) (F64.of_Z 1) 3%nat 4%nat)
    as (layers & Hok & Hlen & _).
  - vm_compute; reflexivity.
  - vm_compute; reflexivity.
  - split; [|vm_compute; reflexivity].
    intros [|[|[|k]]] Hk; [vm_compute; reflexivity..|lia].
  - lia.
  - exists layers. split; assumption.
Defined.







(** The same absorption in single precision: 2^60 + 0.2 is 2^60 there too. *)
Lemma single_precision_absorbs :
  F32.add (F32.of_Z (2 ^ 60)) (F32.div (F32.of_Z 2) (F32.of_Z 10)) =
    F32.of_Z (2 ^ 60).
Proof. vm_compute; reflexivity. Qed.

(** ** Properties of [generate_toolpaths] *)

Lemma key_lt_le p q : key_lt p q = true -> key_le p q = true.
Proof.
  unfold key_lt, key_le.
  destruct (fst p == fst q)%f64 eqn:Hx; cbn [negb].
  - destruct (snd p == snd q)%f64; cbn [negb]; [discriminate|].
    intros H%F64Facts.ltb_leb. rewrite H. apply orb_true_r.
  - intros ->. reflexivity.
Qed.

Lemma not_key_lt_le p q :
  no_nan p -> no_nan q -> key_lt p q = false -> key_le q p = true.
Proof.
  intros [Npx Npy] [Nqx Nqy]. unfold key_lt, key_le.
  rewrite (F64Facts.eqb_sym (fst q)).
  destruct (fst p == fst q)%f64 eqn:Hx; cbn [negb andb].
  - destruct (snd p == snd q)%f64 eqn:Hy; cbn [negb].
    + intros _. rewrite F64Facts.eqb_sym in Hy.
      rewrite (F64Facts.eqb_leb _ _ Hy). apply orb_true_r.
    + intros H. rewrite (F64Facts.not_ltb_leb _ _ Npy Nqy H).
      apply orb_true_r.
  - intros H. destruct (F64Facts.ltb_total _ _ Npx Nqx Hx) as [L|L].
    + congruence.
    + now rewrite L.
Qed.

Lemma key_le_trans p q r :
  key_le p q = true -> key_le q r = true -> key_le p r = true.
Proof.
  unfold key_le. rewrite !orb_true_iff, !andb_true_iff.
  intros [L1|[E1 Y1]] [L2|[E2 Y2]].
  - left. eapply F64Facts.ltb_trans; eauto.
  - left. eapply F64Facts.ltb_eqb_trans; eauto.
  - left. eapply F64Facts.eqb_ltb_trans; eauto.
  - right. split.
    + eapply F64Facts.eqb_trans; eauto.
    + eapply F64Facts.leb_trans; eauto.
Qed.

Lemma insert_by_key_perm pivot prefix :
  Permutation (insert_by_key pivot prefix) (pivot :: prefix).
Proof.
  induction prefix as [|p rest IH]; cbn [insert_by_key].
  - reflexivity.
  - destruct (key_lt pivot p); [reflexivity|].
    rewrite IH. apply perm_swap.
Qed.

Lemma fold_insert_perm path prefix :
  Permutation
    (fold_left (fun prefix pivot => insert_by_key pivot prefix) path prefix)
    (prefix ++ path).
Proof.
  revert prefix. induction path as [|p path IH]; intros prefix; cbn [fold_left].
  - now rewrite app_nil_r.
  - rewrite IH, insert_by_key_perm. apply Permutation_middle.
Qed.

Lemma sorted_perm path : Permutation (sorted path) path.
Proof. unfold sorted. now rewrite fold_insert_perm. Qed.

Lemma insert_by_key_sorted pivot prefix :
  no_nan pivot -> Forall no_nan prefix -> key_sorted prefix ->
  key_sorted (insert_by_key pivot prefix).
Proof.
  intros Npivot. unfold key_sorted.
  induction prefix as [|p rest IH]; intros Nprefix Hsorted; cbn [insert_by_key].
  - repeat constructor.
  - inversion Nprefix as [|? ? Np Nrest]; subst.
    inversion Hsorted as [|? ? Hrest Hall]; subst.
    destruct (key_lt pivot p) eqn:Hlt.
    + constructor; [assumption|]. apply key_lt_le in Hlt.
      constructor; [assumption|].
      eapply Forall_impl; [|exact Hall].
      intros r. apply key_le_trans. exact Hlt.
    + constructor; [now apply IH|].
      eapply Permutation_Forall.
      * symmetry. apply insert_by_key_perm.
      * constructor; [|assumption]. now apply not_key_lt_le.
Qed.

Lemma fold_insert_sorted path :
  forall prefix,
    Forall no_nan prefix -> Forall no_nan path -> key_sorted prefix ->
    key_sorted
      (fold_left (fun prefix pivot => insert_by_key pivot prefix) path prefix).
Proof.
  induction path as [|p path IH]; intros prefix Nprefix Npath Hsorted;
    cbn [fold_left].
  - assumption.
  - inversion Npath as [|? ? Np Npath']; subst. apply IH.
    + eapply Permutation_Forall; [symmetry; apply insert_by_key_perm|].
      now constructor.
    + assumption.
    + now apply insert_by_key_sorted.
Qed.

Lemma sorted_key_sorted path : Forall no_nan path -> key_sorted (sorted path).
Proof.
  intros Npath. unfold sorted.
  apply fold_insert_sorted; [constructor|assumption|constructor].
Qed.

Lemma fold_extend (layer : Layer) (acc : list Point2) :
  fold_left (fun path edge => path ++ edge) layer acc = acc ++ concat layer.
Proof.
  revert acc. induction layer as [|edge layer IH]; intros acc; cbn [fold_left concat].
  - now rewrite app_nil_r.
  - now rewrite IH, app_assoc.
Qed.

Lemma layer_path_sorted layer : layer_path layer = sorted (concat layer).
Proof.
  unfold layer_path. rewrite fold_extend. cbn [app].
  now destruct (concat layer).
Qed.

Lemma fold_toolpaths layers acc :
  fold_left (fun toolpaths layer => toolpaths ++ [layer_path layer]) layers acc =
    acc ++ map layer_path layers.
Proof.
  revert acc. induction layers as [|layer layers IH]; intros acc; cbn [fold_left map].
  - now rewrite app_nil_r.
  - now rewrite IH, <- app_assoc.
Qed.

Lemma generate_toolpaths_map layers :
  generate_toolpaths layers = map (fun layer => sorted (concat layer)) layers.
Proof.
  unfold generate_toolpaths. rewrite fold_toolpaths. cbn [app].
  apply map_ext, layer_path_sorted.
Qed.

Lemma key_eq_sym p q : key_eq p q = key_eq q p.
Proof.
  unfold key_eq.
  now rewrite (F64Facts.eqb_sym (fst p)), (F64Facts.eqb_sym (snd p)).
Qed.

Lemma key_eq_trans p q r :
  key_eq p q = true -> key_eq q r = true -> key_eq p r = true.
Proof.
  unfold key_eq. rewrite !andb_true_iff. intros [X1 Y1] [X2 Y2].
  split; eapply F64Facts.eqb_trans; eauto.
Qed.

Lemma key_eq_le p q : key_eq p q = true -> key_le p q = true.
Proof.
  unfold key_eq, key_le. rewrite andb_true_iff. intros [X Y].
  rewrite X, (F64Facts.eqb_leb _ _ Y). apply orb_true_r.
Qed.

Lemma key_lt_not_ge p q : key_lt p q = true -> key_le q p = false.
Proof.
  unfold key_lt, key_le. rewrite (F64Facts.eqb_sym (fst q)).
  destruct (fst p == fst q)%f64 eqn:Hx; cbn [negb andb].
  - destruct (snd p == snd q)%f64; cbn [negb]; [discriminate|].
    intros H. rewrite (F64Facts.ltb_not_leb _ _ H), orb_false_r.
    apply F64Facts.eqb_not_ltb. now rewrite F64Facts.eqb_sym.
  - intros H. rewrite orb_false_r. now apply F64Facts.ltb_asym.
Qed.

(** Insertion keeps the points of each key in the order of arrival. *)
Lemma insert_by_key_stable a pivot prefix :
  key_sorted prefix ->
  filter (key_eq a) (insert_by_key pivot prefix) =
    filter (key_eq a) (prefix ++ [pivot]).
Proof.
  unfold key_sorted.
  induction prefix as [|p rest IH]; intros Hsorted; cbn [insert_by_key app].
  - reflexivity.
  - inversion Hsorted as [|? ? Hrest Hall]; subst.
    destruct (key_lt pivot p) eqn:Hlt.
    + change (p :: rest ++ [pivot]) with ((p :: rest) ++ [pivot]).
      change (pivot :: p :: rest) with ([pivot] ++ (p :: rest)).
      rewrite !filter_app.
      assert (Hone : filter (key_eq a) [pivot] =
                     if key_eq a pivot then [pivot] else []) by reflexivity.
      rewrite Hone.
      destruct (key_eq a pivot) eqn:Ha; [|now rewrite app_nil_r].
      assert (Hnone : forall r, In r (p :: rest) -> key_eq a r = false).
      { intros r Hr. destruct (key_eq a r) eqn:Hr'; [|reflexivity].
        assert (Hrp : key_le r pivot = true).
        { apply key_eq_le. rewrite key_eq_sym in Hr'.
          eapply key_eq_trans; eauto. }
        apply key_lt_not_ge in Hlt.
        destruct Hr as [->|Hr]; [congruence|].
        rewrite Forall_forall in Hall.
        rewrite (key_le_trans _ _ _ (Hall r Hr) Hrp) in Hlt. discriminate. }
      assert (Hnil : filter (key_eq a) (p :: rest) = []).
      { generalize (p :: rest), Hnone. intros l.
        induction l as [|r l IHl]; intros Hl; cbn [filter]; [reflexivity|].
        rewrite (Hl r) by now left. apply IHl. intros r' Hr'. apply Hl. now right. }
      now rewrite Hnil.
    + cbn [filter]. now rewrite IH.
Qed.

Lemma fold_insert_stable a path :
  forall prefix,
    Forall no_nan prefix -> Forall no_nan path -> key_sorted prefix ->
    filter (key_eq a)
      (fold_left (fun prefix pivot => insert_by_key pivot prefix) path prefix) =
    filter (key_eq a) (prefix ++ path).
Proof.
  induction path as [|p path IH]; intros prefix Nprefix Npath Hsorted;
    cbn [fold_left].
  - now rewrite app_nil_r.
  - inversion Npath as [|? ? Np Npath']; subst. rewrite IH.
    + rewrite !filter_app, insert_by_key_stable by assumption.
      rewrite filter_app, <- app_assoc.
      change (p :: path) with ([p] ++ path). now rewrite filter_app.
    + eapply Permutation_Forall; [symmetry; apply insert_by_key_perm|].
      now constructor.
    + assumption.
    + now apply insert_by_key_sorted.
Qed.

Lemma sorted_stable a path :
  Forall no_nan path ->
  filter (key_eq a) (sorted path) = filter (key_eq a) path.
Proof.
  intros Npath. unfold sorted.
  rewrite fold_insert_stable; [reflexivity|constructor|assumption|constructor].
Qed.

(** C3: there is one toolpath per layer, in the same order; each is the
    concatenation of the segments of its layer, sorted by the key
    (x ascending, then y ascending): the same points, in key order, the
    points of equal keys in their order of arrival.  The segments
    [[(2,1),(0,0)], [(1,1),(1,0)]] give (0,0), (1,0), (1,1), (2,1). *)
Theorem generate_toolpaths_sorts_each_layer :
  (forall layers : list Layer,
     generate_toolpaths layers =
       map (fun layer => sorted (concat layer)) layers) /\
  (forall layers, length (generate_toolpaths layers) = length layers) /\
  (forall path, Permutation (sorted path) path) /\
  (forall path, Forall no_nan path ->
     key_sorted (sorted path) /\
     forall a, filter (key_eq a) (sorted path) = filter (key_eq a) path) /\
  generate_toolpaths [crossed_layer] =
    [[point_Z 0 0; point_Z 1 0; point_Z 1 1; point_Z 2 1]].
Proof.
  split; [exact generate_toolpaths_map|]. split; [|split; [|split]].
  - intros layers. now rewrite generate_toolpaths_map, length_map.
  - exact sorted_perm.
  - intros path Npath. split.
    + now apply sorted_key_sorted.
    + intros a. now apply sorted_stable.
  - vm_compute; reflexivity.
Qed.

Lemma generate_toolpaths_sorts_witness :
  key_sorted (sorted (concat crossed_layer)) /\
  sorted (concat crossed_layer) =
    [point_Z 0 0; point_Z 1 0; point_Z 1 1; point_Z 2 1].
Proof.
  destruct generate_toolpaths_sorts_each_layer as (_ & _ & _ & Hsorted & _).
  split; [|vm_compute; reflexivity].
  apply (Hsorted (concat crossed_layer)).
  repeat constructor.
Defined.

(** ** Properties of [generate_gcode] *)

Lemma fold_xy_moves layer gcode_file :
  fold_left (fun f p => write f (xy_move p)) layer gcode_file =
    gcode_file ++ map xy_move layer.
Proof.
  revert gcode_file.
  induction layer as [|p layer IH]; intros gcode_file; cbn [fold_left map].
  - now rewrite app_nil_r.
  - rewrite IH. unfold write. now rewrite <- app_assoc.
Qed.

Lemma fold_toolpath_step h toolpaths :
  forall gcode_file z,
    fold_left (toolpath_step h) toolpaths (gcode_file, z) =
      (gcode_file ++ body_from h z toolpaths,
       swept_height z h (length toolpaths)).
Proof.
  induction toolpaths as [|layer rest IH]; intros gcode_file z;
    cbn [fold_left body_from length].
  - now rewrite app_nil_r.
  - unfold toolpath_step at 2. rewrite fold_xy_moves, IH.
    rewrite swept_height_shift. unfold write, layer_block.
    rewrite <- !app_assoc. reflexivity.
Qed.

Lemma body_from_indexed h z0 toolpaths :
  forall k,
    body_from h (swept_height z0 h k) toolpaths =
      concat (map (fun it => layer_block (swept_height z0 h (S (fst it)))
                                         (snd it))
                  (combine (seq k (length toolpaths)) toolpaths)).
Proof.
  induction toolpaths as [|layer rest IH]; intros k;
    cbn [body_from length seq combine map concat fst snd].
  - reflexivity.
  - change (swept_height z0 h k + h)%f64 with (swept_height z0 h (S k)).
    now rewrite IH.
Qed.

Lemma gcode_writes_blocks toolpaths h :
  gcode_writes toolpaths h = preamble ++ gcode_body toolpaths h ++ postamble.
Proof.
  unfold gcode_writes. rewrite fold_toolpath_step.
  unfold write, gcode_body, indexed, running_height.
  rewrite <- (body_from_indexed h (F64.of_Z 0) toolpaths 0).
  cbn [swept_height Nat.iter]. unfold preamble, postamble.
  rewrite <- !app_assoc. reflexivity.
Qed.

Lemma body_from_length h toolpaths :
  forall z, length (body_from h z toolpaths) =
            (length toolpaths + length (concat toolpaths))%nat.
Proof.
  induction toolpaths as [|layer rest IH]; intros z;
    cbn [body_from concat length]; [reflexivity|].
  unfold layer_block. cbn [length app].
  rewrite !length_app, length_map, IH. lia.
Qed.

Lemma string_of_uint_digits d :
  all_digits (NilEmpty.string_of_uint d) = true.
Proof. induction d; cbn; auto. Qed.

Lemma digits_all_digits n :
  all_digits (digits n) = true /\ digits n <> EmptyString.
Proof.
  unfold digits, NilZero.string_of_uint.
  destruct (N.to_uint (Z.to_N n)) as [|d|d|d|d|d|d|d|d|d|d];
    (split; [|cbn; discriminate]); try reflexivity;
    match goal with
    | |- all_digits (NilEmpty.string_of_uint ?u) = true =>
        apply (string_of_uint_digits u)
    end.
Qed.

Lemma single_digit k :
  0 <= k < 10 ->
  String.length (digits k) = 1%nat /\ all_digits (digits k) = true.
Proof.
  intros Hk.
  assert (H : k = 0 \/ k = 1 \/ k = 2 \/ k = 3 \/ k = 4 \/
              k = 5 \/ k = 6 \/ k = 7 \/ k = 8 \/ k = 9) by lia.
  repeat (destruct H as [->|H]; [split; reflexivity|]).
  subst k. split; reflexivity.
Qed.

Lemma string_length_app s1 s2 :
  String.length (s1 ++ s2)%string = (String.length s1 + String.length s2)%nat.
Proof. induction s1 as [|c s1 IH]; cbn; [reflexivity|now rewrite IH]. Qed.

Lemma all_digits_app s1 s2 :
  all_digits (s1 ++ s2)%string = (all_digits s1 && all_digits s2)%bool.
Proof.
  induction s1 as [|c s1 IH]; cbn; [reflexivity|].
  now rewrite IH, andb_assoc.
Qed.

Lemma fixed2_shape s n :
  exists ip fp,
    fixed2 s n = ((if s then "-" else "") ++ ip ++ "." ++ fp)%string /\
    ip <> EmptyString /\ all_digits ip = true /\
    String.length fp = 2%nat /\ all_digits fp = true.
Proof.
  exists (digits (n / 100)), (digits (n / 10 mod 10) ++ digits (n mod 10))%string.
  destruct (digits_all_digits (n / 100)) as [Hall Hne].
  destruct (single_digit (n / 10 mod 10)) as [L1 D1];
    [apply Z.mod_pos_bound; lia|].
  destruct (single_digit (n mod 10)) as [L2 D2];
    [apply Z.mod_pos_bound; lia|].
  repeat split; try assumption.
  - now rewrite string_length_app, L1, L2.
  - now rewrite all_digits_app, D1, D2.
Qed.

Lemma fmt2_two_decimals x :
  F64.is_finite x = true ->
  exists ip fp,
    fmt2 x = (sign_of x ++ ip ++ "." ++ fp)%string /\
    ip <> EmptyString /\ all_digits ip = true /\
    String.length fp = 2%nat /\ all_digits fp = true.
Proof.
  destruct x as [s|s| |s m e]; cbn [F64.is_finite]; try discriminate; intros _.
  - destruct (fixed2_shape s 0) as (ip & fp & H). exists ip, fp.
    cbn [fmt2 sign_of]. now destruct s.
  - destruct (fixed2_shape s (hundredths m e)) as (ip & fp & H). exists ip, fp.
    cbn [fmt2 sign_of]. now destruct s.
Qed.

(** C4, as amended: between the preamble and the postamble the stream has,
    for the toolpath of index [i] in order, one Z move at feed rate 300
    whose height is the running sum 0 + h + ... + h of [i + 1] rounded
    additions, then one XY move at feed rate 1500 per point of the toolpath
    in its order; every finite number is printed as a sign, an integer part,
    a point and exactly two digits. *)
Theorem gcode_one_block_per_toolpath :
  (forall toolpaths h,
     gcode_writes toolpaths h =
       preamble ++ gcode_body toolpaths h ++ postamble) /\
  (forall toolpaths h,
     length (gcode_body toolpaths h) =
       (length toolpaths + length (concat toolpaths))%nat) /\
  (forall h k, running_height h (S k) = (running_height h k + h)%f64) /\
  (forall h, running_height h 0 = F64.of_Z 0) /\
  (forall z,
     z_move z = ("G1 Z" ++ fmt2 z ++ " F300 ; Move to layer height" ++ nl)%string) /\
  (forall x y,
     xy_move (x, y) =
       ("G1 X" ++ fmt2 x ++ " Y" ++ fmt2 y ++ " F1500 ; Move" ++ nl)%string) /\
  (forall x, F64.is_finite x = true ->
     exists ip fp,
       fmt2 x = (sign_of x ++ ip ++ "." ++ fp)%string /\
       ip <> EmptyString /\ all_digits ip = true /\
       String.length fp = 2%nat /\ all_digits fp = true).
Proof.
  split; [exact gcode_writes_blocks|]. split.
  - intros toolpaths h. unfold gcode_body, indexed, running_height.
    rewrite <- (body_from_indexed h (F64.of_Z 0) toolpaths 0).
    apply body_from_length.
  - repeat (split; [intros; reflexivity|]). exact fmt2_two_decimals.
Qed.

Lemma gcode_one_block_per_toolpath_witness :
  exists ip fp,
    fmt2 (F64.dec 2 10) = (sign_of (F64.dec 2 10) ++ ip ++ "." ++ fp)%string /\
    ip <> EmptyString /\ all_digits ip = true /\
    String.length fp = 2%nat /\ all_digits fp = true.
Proof.
  destruct gcode_one_block_per_toolpath as (_ & _ & _ & _ & _ & _ & Hfmt).
  apply (Hfmt (F64.dec 2 10)). vm_compute; reflexivity.
Defined.

(** C4 as stated fails for seven toolpaths and the layer height 0.025: the
    seventh Z move is [G1 Z0.17 F300], the running sum being just below
    0.175, while 7 x 0.025 prints as 0.18, as a floating-point product and
    as an exact one. *)
Lemma seventh_height_is_a_sum_not_a_product :
  let h := F64.dec 25 1000 in
  nth_error (gcode_writes seven_empty_toolpaths h) 12 =
    Some ("G1 Z0.17 F300 ; Move to layer height" ++ nl)%string /\
  z_move (product_height h 6) =
    ("G1 Z0.18 F300 ; Move to layer height" ++ nl)%string /\
  ~ In (z_move (product_height h 6)) (gcode_writes seven_empty_toolpaths h) /\
  (175 # 1000 < 7 * F64.to_Q h)%Q.
Proof.
  cbv zeta. split; [vm_compute; reflexivity|].
  split; [vm_compute; reflexivity|]. split.
  - vm_compute. intros H.
    repeat (destruct H as [H|H]; [discriminate H|]). exact H.
  - vm_compute; reflexivity.
Qed.

(** C7: for a single empty toolpath and the layer height 0.2 the output is
    the six lines of the preamble, the line [G1 Z0.20 F300], and the three
    lines of the postamble; no line is an XY move. *)
Theorem single_empty_toolpath_output :
  gcode_writes [[]] (F64.dec 2 10) =
    [ "G21 ; Set units to mm" ++ nl;
      "G90 ; Absolute positioning" ++ nl;
      "M104 S200 ; Set extruder temperature" ++ nl;
      "M140 S60 ; Set bed temperature" ++ nl;
      "M190 S60 ; Wait for bed temperature" ++ nl;
      "M109 S200 ; Wait for extruder temperature" ++ nl;
      "G1 Z0.20 F300 ; Move to layer height" ++ nl;
      "M104 S0 ; Turn off extruder" ++ nl;
      "M140 S0 ; Turn off bed" ++ nl;
      "M84 ; Disable motors" ++ nl ]%string /\
  Forall (fun line => String.prefix "G1 X" line = false)
         (gcode_writes [[]] (F64.dec 2 10)) /\
  forall output_file fs,
    generate_gcode [[]] (F64.dec 2 10) output_file fs output_file =
      Some ("G21 ; Set units to mm" ++ nl ++
            "G90 ; Absolute positioning" ++ nl ++
            "M104 S200 ; Set extruder temperature" ++ nl ++
            "M140 S60 ; Set bed temperature" ++ nl ++
            "M190 S60 ; Wait for bed temperature" ++ nl ++
            "M109 S200 ; Wait for extruder temperature" ++ nl ++
            "G1 Z0.20 F300 ; Move to layer height" ++ nl ++
            "M104 S0 ; Turn off extruder" ++ nl ++
            "M140 S0 ; Turn off bed" ++ nl ++
            "M84 ; Disable motors" ++ nl)%string.
Proof.
  split; [vm_compute; reflexivity|]. split.
  - vm_compute. repeat constructor.
  - intros output_file fs. unfold generate_gcode.
    rewrite String.eqb_refl. vm_compute; reflexivity.
Qed.

(** ** The whole pipeline *)




(** * Further properties *)

(** ** Which triangles a plane keeps *)

Lemma edge_points_length_compare p1 p2 z c1 c2 :
  SFcompare (vz p1) z = Some c1 -> SFcompare (vz p2) z = Some c2 ->
  length (edge_points p1 p2 z) = edge_count c1 c2.
Proof.
  intros H1 H2.
  pose proof (F64Facts.compare_antisym _ _ _ H1) as H1'.
  pose proof (F64Facts.compare_antisym _ _ _ H2) as H2'.
  unfold edge_points, crosses, F64.eqb, SFeqb, F64.ltb, SFltb, F64.leb, SFleb.
  rewrite H1, H2, H1', H2'. destruct c1, c2; reflexivity.
Qed.

Lemma compare_eqb_ltb a z c :
  SFcompare a z = Some c ->
  (a == z)%f64 = match c with Eq => true | _ => false end /\
  (a <? z)%f64 = match c with Lt => true | _ => false end.
Proof.
  intros H. unfold F64.eqb, SFeqb, F64.ltb, SFltb. rewrite H.
  now destruct c.
Qed.

(** X3: for a triangle and a plane free of NaN the number of points is
    even: 0, 2, 4 or 6, never 1, 3 or 5.  It is 6 exactly when the three
    vertices are on the plane and 4 exactly when two are on it and the third
    is below; these are the triangles a layer drops. *)
Theorem intersection_count_is_even (t : Triangle) (z : float) :
  z_no_nan t -> F64.is_nan z = false ->
  let n := length (calculate_plane_intersection t z) in
  let on v := (vz v == z)%f64 = true in
  let below v := (vz v <? z)%f64 = true in
  (n = 0 \/ n = 2 \/ n = 4 \/ n = 6)%nat /\
  (n = 6%nat <-> on (tv0 t) /\ on (tv1 t) /\ on (tv2 t)) /\
  (n = 4%nat <->
     (on (tv0 t) /\ on (tv1 t) /\ below (tv2 t)) \/
     (on (tv1 t) /\ on (tv2 t) /\ below (tv0 t)) \/
     (on (tv2 t) /\ on (tv0 t) /\ below (tv1 t))).
Proof.
  intros (N0 & N1 & N2) Nz.
  destruct (F64Facts.compare_total _ _ N0 Nz) as [c0 H0].
  destruct (F64Facts.compare_total _ _ N1 Nz) as [c1 H1].
  destruct (F64Facts.compare_total _ _ N2 Nz) as [c2 H2].
  cbv zeta. rewrite calculate_plane_intersection_edges, !length_app.
  rewrite (edge_points_length_compare _ _ _ _ _ H0 H1),
          (edge_points_length_compare _ _ _ _ _ H1 H2),
          (edge_points_length_compare _ _ _ _ _ H2 H0).
  destruct (compare_eqb_ltb _ _ _ H0) as [-> ->].
  destruct (compare_eqb_ltb _ _ _ H1) as [-> ->].
  destruct (compare_eqb_ltb _ _ _ H2) as [-> ->].
  destruct c0, c1, c2; cbn; intuition (try discriminate; try lia).
Qed.

Lemma intersection_count_is_even_witness :
  length (calculate_plane_intersection flat_triangle (F64.of_Z 0)) = 6%nat.
Proof.
  destruct (intersection_count_is_even flat_triangle (F64.of_Z 0))
    as (_ & H6 & _);
    [repeat split; vm_compute; reflexivity | vm_compute; reflexivity |].
  apply H6. repeat split; vm_compute; reflexivity.
Defined.

Lemma leb_refl a : F64.is_nan a = false -> (a <=? a)%f64 = true.
Proof. intros H. apply F64Facts.eqb_leb. now apply F64Facts.eqb_refl. Qed.

Lemma fmin_le a b :
  F64.is_nan a = false -> F64.is_nan b = false ->
  (fmin a b <=? a)%f64 = true /\ (fmin a b <=? b)%f64 = true.
Proof.
  intros Na Nb. unfold fmin. rewrite Na. cbn [orb].
  destruct (a <=? b)%f64 eqn:Hab.
  - split; [now apply leb_refl|exact Hab].
  - split; [|now apply leb_refl].
    apply F64Facts.not_ltb_leb; try assumption.
    destruct (a <? b)%f64 eqn:Hlt; [|reflexivity].
    apply F64Facts.ltb_leb in Hlt. congruence.
Qed.

Lemma fmax_ge a b :
  F64.is_nan a = false -> F64.is_nan b = false ->
  (a <=? fmax a b)%f64 = true /\ (b <=? fmax a b)%f64 = true.
Proof.
  intros Na Nb. unfold fmax. rewrite Na. cbn [orb].
  destruct (b <=? a)%f64 eqn:Hba.
  - split; [now apply leb_refl|exact Hba].
  - split; [|now apply leb_refl].
    apply F64Facts.not_ltb_leb; try assumption.
    destruct (b <? a)%f64 eqn:Hlt; [|reflexivity].
    apply F64Facts.ltb_leb in Hlt. congruence.
Qed.

Lemma leb_ltb_trans a b c :
  (a <=? b)%f64 = true -> (b <? c)%f64 = true -> (a <? c)%f64 = true.
Proof.
  rewrite F64Facts.leb_compare, !F64Facts.ltb_compare.
  intros [H|H] Hbc; eapply F64Facts.compare_trans; eauto.
Qed.

Lemma length_zero_nil {A : Type} (l : list A) : length l = 0%nat -> l = [].
Proof. now destruct l. Qed.

(** X2: a plane strictly below the least or strictly above the greatest
    z-coordinate of a triangle meets it in no point. *)
Theorem plane_outside_gives_nothing (t : Triangle) (z : float) :
  (z <? tri_z_min t)%f64 = true \/ (tri_z_max t <? z)%f64 = true ->
  calculate_plane_intersection t z = [].
Proof.
  intros H. apply length_zero_nil.
  rewrite calculate_plane_intersection_edges, !length_app.
  destruct H as [H|H].
  - pose proof (F64Facts.ltb_nan_l _ _ H) as Nz.
    pose proof (F64Facts.ltb_nan_r _ _ H) as Nmin. unfold tri_z_min in *.
    destruct (fmin_not_nan _ _ Nmin) as [N01 N2].
    destruct (fmin_not_nan _ _ N01) as [N0 N1].
    destruct (fmin_le _ _ N01 N2) as [L01 L2].
    destruct (fmin_le _ _ N0 N1) as [L0 L1].
    pose proof (F64Facts.ltb_leb_trans _ _ _ H L2) as A2.
    pose proof (F64Facts.ltb_leb_trans _ _ _ H L01) as A01.
    pose proof (F64Facts.ltb_leb_trans _ _ _ A01 L0) as A0.
    pose proof (F64Facts.ltb_leb_trans _ _ _ A01 L1) as A1.
    apply F64Facts.ltb_compare, F64Facts.compare_antisym in A0, A1, A2.
    now rewrite (edge_points_length_compare _ _ _ _ _ A0 A1),
                (edge_points_length_compare _ _ _ _ _ A1 A2),
                (edge_points_length_compare _ _ _ _ _ A2 A0).
  - pose proof (F64Facts.ltb_nan_r _ _ H) as Nz.
    pose proof (F64Facts.ltb_nan_l _ _ H) as Nmax. unfold tri_z_max in *.
    destruct (fmax_not_nan _ _ Nmax) as [N01 N2].
    destruct (fmax_not_nan _ _ N01) as [N0 N1].
    destruct (fmax_ge _ _ N01 N2) as [L01 L2].
    destruct (fmax_ge _ _ N0 N1) as [L0 L1].
    pose proof (leb_ltb_trans _ _ _ L2 H) as B2.
    pose proof (leb_ltb_trans _ _ _ L01 H) as B01.
    pose proof (leb_ltb_trans _ _ _ L0 B01) as B0.
    pose proof (leb_ltb_trans _ _ _ L1 B01) as B1.
    apply F64Facts.ltb_compare in B0, B1, B2.
    now rewrite (edge_points_length_compare _ _ _ _ _ B0 B1),
                (edge_points_length_compare _ _ _ _ _ B1 B2),
                (edge_points_length_compare _ _ _ _ _ B2 B0).
Qed.

Lemma plane_outside_gives_nothing_witness :
  calculate_plane_intersection integer_triangle (F64.of_Z 3) = [] /\
  calculate_plane_intersection integer_triangle (F64.of_Z (-1)) = [].
Proof.
  split; apply plane_outside_gives_nothing;
    [right | left]; vm_compute; reflexivity.
Defined.

Lemma edge_points_length_sym p1 p2 z :
  length (edge_points p1 p2 z) = length (edge_points p2 p1 z).
Proof.
  unfold edge_points, crosses.
  rewrite (andb_comm (vz p2 == z)%f64).
  rewrite (orb_comm ((vz p2 <? z)%f64 && (z <=? vz p1)%f64)).
  destruct ((vz p1 == z)%f64 && (vz p2 == z)%f64); [reflexivity|].
  now destruct ((vz p1 <? z)%f64 && (z <=? vz p2)%f64
                || (vz p2 <? z)%f64 && (z <=? vz p1)%f64).
Qed.

(** X4: listing the vertices of a triangle from another one on gives the
    same points in another order, and exchanging two vertices gives as many
    points: whether a triangle contributes a segment to a layer does not
    depend on the order in which its vertices are stored. *)
Theorem intersection_independent_of_vertex_order (t : Triangle) (z : float) :
  Permutation (calculate_plane_intersection (rotate_vertices t) z)
              (calculate_plane_intersection t z) /\
  length (calculate_plane_intersection (flip_vertices t) z) =
    length (calculate_plane_intersection t z).
Proof.
  rewrite !calculate_plane_intersection_edges. cbn [rotate_vertices flip_vertices tv0 tv1 tv2].
  split.
  - rewrite (app_assoc (edge_points (tv1 t) (tv2 t) z)).
    apply Permutation_app_comm.
  - rewrite !length_app.
    rewrite (edge_points_length_sym (tv0 t) (tv2 t)),
            (edge_points_length_sym (tv2 t) (tv1 t)),
            (edge_points_length_sym (tv1 t) (tv0 t)).
    lia.
Qed.

(** X14: when an edge of the triangle lies in the plane and the third
    vertex is above it, the points returned are the two ends of that edge
    as they are stored, first end first, with no arithmetic on them. *)
Theorem edge_in_plane_is_returned (t : Triangle) (z : float) :
  let on v := (vz v == z)%f64 = true in
  let above v := (z <? vz v)%f64 = true in
  (on (tv0 t) -> on (tv1 t) -> above (tv2 t) ->
   calculate_plane_intersection t z = [xy (tv0 t); xy (tv1 t)]) /\
  (on (tv1 t) -> on (tv2 t) -> above (tv0 t) ->
   calculate_plane_intersection t z = [xy (tv1 t); xy (tv2 t)]) /\
  (on (tv2 t) -> on (tv0 t) -> above (tv1 t) ->
   calculate_plane_intersection t z = [xy (tv2 t); xy (tv0 t)]).
Proof.
  assert (Hon : forall p q, (vz p == z)%f64 = true -> (vz q == z)%f64 = true ->
                            edge_points p q z = [xy p; xy q]).
  { intros p q Hp Hq. unfold edge_points. now rewrite Hp, Hq. }
  assert (Hup : forall p q, (vz p == z)%f64 = true -> (z <? vz q)%f64 = true ->
                            edge_points p q z = [] /\ edge_points q p z = []).
  { intros p q Hp Hq.
    apply F64Facts.eqb_compare in Hp. apply F64Facts.ltb_compare in Hq.
    apply F64Facts.compare_antisym in Hq. cbn in Hq.
    split; apply length_zero_nil.
    - now rewrite (edge_points_length_compare _ _ _ _ _ Hp Hq).
    - now rewrite (edge_points_length_compare _ _ _ _ _ Hq Hp). }
  cbv zeta. repeat split; intros H1 H2 H3;
    rewrite calculate_plane_intersection_edges.
  - destruct (Hup _ _ H1 H3) as [_ E20]. destruct (Hup _ _ H2 H3) as [E12 _].
    now rewrite (Hon _ _ H1 H2), E12, E20.
  - destruct (Hup _ _ H1 H3) as [_ E01]. destruct (Hup _ _ H2 H3) as [E20 _].
    now rewrite (Hon _ _ H1 H2), E01, E20.
  - destruct (Hup _ _ H1 H3) as [_ E12]. destruct (Hup _ _ H2 H3) as [E01 _].
    now rewrite (Hon _ _ H1 H2), E01, E12.
Qed.

Lemma edge_in_plane_is_returned_witness :
  calculate_plane_intersection
    (mkTriangle (vertex_Z 0 0 0) (vertex_Z 1 0 0) (vertex_Z 0 1 1))
    (F64.of_Z 0) = [(F64.of_Z 0, F64.of_Z 0); (F64.of_Z 1, F64.of_Z 0)].
Proof.
  destruct (edge_in_plane_is_returned
              (mkTriangle (vertex_Z 0 0 0) (vertex_Z 1 0 0) (vertex_Z 0 1 1))
              (F64.of_Z 0)) as (H & _).
  apply H; vm_compute; reflexivity.
Defined.

(** ** Edge cases of [slice_model] *)

(** X1: [slice_model] raises exactly on the mesh without triangles, whose
    heights have neither a least nor a greatest one; on any other mesh it
    returns or keeps running. *)
Theorem slice_model_raises_iff_empty
    (fuel : nat) (mesh_data : Mesh) (h : float) :
  slice_model fuel mesh_data h = ValueError <-> mesh_data = [].
Proof.
  unfold slice_model. destruct mesh_data as [|t rest]; cbn [mesh_z flat_map app].
  - cbn. tauto.
  - cbn [np_min np_max]. split; [|discriminate].
    intros H. now apply slice_loop_never_raises in H.
Qed.

Lemma slice_model_raises_iff_empty_witness :
  slice_model 5 [] (F64.dec 2 10) = ValueError.
Proof. now apply (slice_model_raises_iff_empty 5 [] (F64.dec 2 10)). Defined.

Lemma fold_fmin_nan rest :
  forall acc,
    F64.is_nan acc = true \/ Exists (fun z => F64.is_nan z = true) rest ->
    F64.is_nan (fold_left fmin rest acc) = true.
Proof.
  induction rest as [|b rest IH]; intros acc H; cbn [fold_left].
  - destruct H as [H|H]; [exact H|inversion H].
  - apply IH. unfold fmin.
    destruct H as [H|H].
    + left. now rewrite H.
    + inversion H as [? ? Hb|? ? Hrest]; subst; [|now right].
      left. destruct (F64.is_nan acc) eqn:Hacc; cbn [orb]; [exact Hacc|].
      destruct b; try discriminate Hb.
      unfold F64.leb, SFleb. destruct acc; cbn; reflexivity.
Qed.

Lemma leb_nan_l a b : F64.is_nan a = true -> (a <=? b)%f64 = false.
Proof. destruct a; try discriminate. reflexivity. Qed.

(** X5: a mesh with a NaN among its heights is sliced into no layer at all:
    the least height is then NaN, the first test of the loop fails and the
    empty list is returned. *)
Theorem nan_height_gives_no_layer (fuel : nat) (mesh_data : Mesh) (h : float) :
  mesh_has_nan mesh_data -> slice_model (S fuel) mesh_data h = Ok [].
Proof.
  unfold mesh_has_nan, slice_model.
  destruct (mesh_z mesh_data) as [|x rest]; intros H; [inversion H|].
  cbn [np_min np_max slice_loop].
  rewrite leb_nan_l; [reflexivity|].
  apply fold_fmin_nan.
  inversion H; subst; [now left|now right].
Qed.

Lemma nan_height_gives_no_layer_witness :
  slice_model 1 nan_mesh (F64.dec 2 10) = Ok [].
Proof.
  apply nan_height_gives_no_layer.
  unfold mesh_has_nan. cbn. right. left. reflexivity.
Defined.

Lemma fold_fmin_le rest :
  forall acc,
    F64.is_nan acc = false -> Forall (fun z => F64.is_nan z = false) rest ->
    F64.is_nan (fold_left fmin rest acc) = false /\
    (fold_left fmin rest acc <=? acc)%f64 = true.
Proof.
  induction rest as [|b rest IH]; intros acc Nacc Nrest; cbn [fold_left].
  - split; [exact Nacc|now apply leb_refl].
  - inversion Nrest as [|? ? Nb Nrest']; subst.
    destruct (fmin_le acc b Nacc Nb) as [Hl _].
    assert (Nm : F64.is_nan (fmin acc b) = false).
    { destruct (fmin_cases acc b) as [->| ->]; assumption. }
    destruct (IH _ Nm Nrest') as [Nr Hr].
    split; [exact Nr|]. eapply F64Facts.leb_trans; eauto.
Qed.

Lemma fold_fmax_ge rest :
  forall acc,
    F64.is_nan acc = false -> Forall (fun z => F64.is_nan z = false) rest ->
    F64.is_nan (fold_left fmax rest acc) = false /\
    (acc <=? fold_left fmax rest acc)%f64 = true.
Proof.
  induction rest as [|b rest IH]; intros acc Nacc Nrest; cbn [fold_left].
  - split; [exact Nacc|now apply leb_refl].
  - inversion Nrest as [|? ? Nb Nrest']; subst.
    destruct (fmax_ge acc b Nacc Nb) as [Hl _].
    assert (Nm : F64.is_nan (fmax acc b) = false).
    { destruct (fmax_cases acc b) as [->| ->]; assumption. }
    destruct (IH _ Nm Nrest') as [Nr Hr].
    split; [exact Nr|]. eapply F64Facts.leb_trans; eauto.
Qed.

(** The bounds of a mesh free of NaN: both exist and are in order. *)
Lemma mesh_bounds_ordered mesh_data :
  mesh_data <> [] -> mesh_no_nan mesh_data ->
  exists z_min z_max,
    np_min (mesh_z mesh_data) = Some z_min /\
    np_max (mesh_z mesh_data) = Some z_max /\
    (z_min <=? z_max)%f64 = true.
Proof.
  unfold mesh_no_nan. destruct mesh_data as [|t rest]; [tauto|]. intros _.
  cbn [mesh_z flat_map app]. intros N.
  inversion N as [|? ? N0 Nrest]; subst. cbn [np_min np_max].
  destruct (fold_fmin_le _ _ N0 Nrest) as [_ Hmin].
  destruct (fold_fmax_ge _ _ N0 Nrest) as [_ Hmax].
  eexists. eexists. split; [reflexivity|]. split; [reflexivity|].
  eapply F64Facts.leb_trans; eauto.
Qed.

(** X6: on a mesh that has a triangle and no NaN the loop runs at least
    once: every list of layers [slice_model] returns starts with the layer
    of the least height of the mesh. *)
Theorem first_layer_at_least_height
    (fuel : nat) (mesh_data : Mesh) (h : float) (layers : list Layer) :
  mesh_data <> [] -> mesh_no_nan mesh_data ->
  slice_model fuel mesh_data h = Ok layers ->
  exists z_min rest,
    np_min (mesh_z mesh_data) = Some z_min /\
    layers = slice_layer mesh_data z_min :: rest.
Proof.
  intros Hne Hnan.
  destruct (mesh_bounds_ordered _ Hne Hnan) as (z_min & z_max & Hmin & Hmax & Hle).
  unfold slice_model. rewrite Hmin, Hmax.
  intros (n & _ & Hstop & ->)%slice_loop_ok.
  exists z_min. destruct n as [|n].
  - apply sweep_stops_zero in Hstop. congruence.
  - rewrite swept_layers_succ. cbn [app]. eauto.
Qed.

Lemma first_layer_at_least_height_witness :
  exists rest,
    swept_layers unit_mesh (F64.of_Z 0) (F64.dec 5 10) 3 =
      slice_layer unit_mesh (F64.of_Z 0) :: rest.
Proof.
  destruct (first_layer_at_least_height 4 unit_mesh (F64.dec 5 10)
              (swept_layers unit_mesh (F64.of_Z 0) (F64.dec 5 10) 3))
    as (z_min & rest & Hmin & Hlayers).
  - discriminate.
  - unfold mesh_no_nan. cbn. repeat constructor.
  - vm_compute; reflexivity.
  - exists rest. cbn in Hmin. injection Hmin as <-. exact Hlayers.
Defined.

Lemma add_zero_compare z s w :
  SFcompare (z + S754_zero s)%f64 w = SFcompare z w.
Proof.
  unfold F64.add. destruct z as [sz|sz| |sz mz ez]; cbn [SFadd]; try reflexivity.
  destruct sz, s, w; reflexivity.
Qed.

Lemma slice_loop_zero_height vectors z_max s :
  forall fuel z layers,
    (z <=? z_max)%f64 = true ->
    slice_loop fuel vectors z_max (S754_zero s) z layers = OutOfFuel.
Proof.
  induction fuel as [|fuel IH]; intros z layers Hle; cbn [slice_loop].
  - reflexivity.
  - rewrite Hle. apply IH.
    unfold F64.leb, SFleb in *. now rewrite add_zero_compare.
Qed.

(** X7: with a layer height of zero, of either sign, the loop of
    [slice_model] never ends on a mesh that has a triangle and no NaN: the
    swept height stays where it is. *)
Theorem zero_layer_height_never_ends
    (fuel : nat) (mesh_data : Mesh) (s : bool) :
  mesh_data <> [] -> mesh_no_nan mesh_data ->
  slice_model fuel mesh_data (S754_zero s) = OutOfFuel.
Proof.
  intros Hne Hnan.
  destruct (mesh_bounds_ordered _ Hne Hnan) as (z_min & z_max & Hmin & Hmax & Hle).
  unfold slice_model. rewrite Hmin, Hmax.
  now apply slice_loop_zero_height.
Qed.

Lemma zero_layer_height_never_ends_witness :
  slice_model 1000 unit_mesh (F64.of_Z 0) = OutOfFuel.
Proof.
  apply (zero_layer_height_never_ends 1000 unit_mesh false).
  - discriminate.
  - unfold mesh_no_nan. cbn. repeat constructor.
Defined.

(** ** From layers to toolpaths *)

Lemma slice_layer_two_points vectors z :
  Forall (fun seg => length seg = 2%nat) (slice_layer vectors z).
Proof.
  rewrite slice_layer_filter. apply Forall_forall.
  intros seg [_ H]%filter_In. now apply Nat.eqb_eq.
Qed.

Lemma concat_two_points (layer : Layer) :
  Forall (fun seg => length seg = 2%nat) layer ->
  length (concat layer) = (2 * length layer)%nat.
Proof.
  induction 1 as [|seg layer Hseg _ IH]; cbn [concat length]; [reflexivity|].
  rewrite length_app, Hseg, IH. lia.
Qed.

Lemma Forall2_map_r {A B : Type} (P : A -> B -> Prop) (f : A -> B) l :
  Forall (fun x => P x (f x)) l -> Forall2 P l (map f l).
Proof. induction 1; cbn [map]; constructor; assumption. Qed.

(** X8: every layer [slice_model] returns is made of two-point segments,
    and the toolpath [generate_toolpaths] gives for it holds the same
    points, twice as many as the layer has segments. *)
Theorem toolpath_of_sliced_layer
    (fuel : nat) (mesh_data : Mesh) (h : float) (layers : list Layer) :
  slice_model fuel mesh_data h = Ok layers ->
  Forall2 (fun layer path =>
             Forall (fun seg => length seg = 2%nat) layer /\
             Permutation path (concat layer) /\
             length path = (2 * length layer)%nat)
          layers (generate_toolpaths layers).
Proof.
  unfold slice_model.
  destruct (np_min (mesh_z mesh_data)) as [z_min|]; [|discriminate].
  destruct (np_max (mesh_z mesh_data)) as [z_max|]; [|discriminate].
  intros (n & _ & _ & ->)%slice_loop_ok. cbn [app].
  rewrite generate_toolpaths_map. apply Forall2_map_r.
  unfold swept_layers. apply Forall_forall.
  intros layer (k & <- & _)%in_map_iff.
  pose proof (slice_layer_two_points (mesh_vectors mesh_data)
                (swept_height z_min h k)) as Htwo.
  split; [exact Htwo|]. split; [apply sorted_perm|].
  rewrite (Permutation_length (sorted_perm _)).
  now apply concat_two_points.
Qed.

Lemma toolpath_of_sliced_layer_witness :
  Forall2 (fun layer path =>
             Forall (fun seg => length seg = 2%nat) layer /\
             Permutation path (concat layer) /\
             length path = (2 * length layer)%nat)
          (swept_layers unit_mesh (F64.of_Z 0) (F64.dec 5 10) 3)
          (generate_toolpaths
             (swept_layers unit_mesh (F64.of_Z 0) (F64.dec 5 10) 3)).
Proof.
  apply (toolpath_of_sliced_layer 4 unit_mesh (F64.dec 5 10)).
  vm_compute; reflexivity.
Defined.

Lemma insert_by_key_last pivot prefix :
  Forall (fun p => key_le p pivot = true) prefix ->
  insert_by_key pivot prefix = prefix ++ [pivot].
Proof.
  induction 1 as [|p rest Hp _ IH]; cbn [insert_by_key app]; [reflexivity|].
  destruct (key_lt pivot p) eqn:Hlt.
  - apply key_lt_not_ge in Hlt. congruence.
  - now rewrite IH.
Qed.

Lemma fold_insert_sorted_input path :
  forall prefix,
    key_sorted (prefix ++ path) ->
    fold_left (fun prefix pivot => insert_by_key pivot prefix) path prefix =
      prefix ++ path.
Proof.
  unfold key_sorted.
  induction path as [|p path IH]; intros prefix Hsorted; cbn [fold_left].
  - now rewrite app_nil_r.
  - rewrite insert_by_key_last.
    + rewrite IH; rewrite <- app_assoc; [reflexivity|exact Hsorted].
    + clear IH. induction prefix as [|q prefix IHp]; [constructor|].
      cbn [app] in Hsorted. inversion Hsorted as [|? ? Hrest Hall]; subst.
      constructor.
      * rewrite Forall_forall in Hall. apply Hall.
        apply in_or_app. right. now left.
      * now apply IHp.
Qed.

(** X9: a path already in key order is left as it is by the sort of
    [generate_toolpaths], so sorting twice is sorting once; for the points
    of a layer free of NaN the toolpath is therefore a fixed point. *)
Theorem sorted_keeps_sorted_paths :
  (forall path, key_sorted path -> sorted path = path) /\
  (forall path, Forall no_nan path -> sorted (sorted path) = sorted path) /\
  (forall layer : Layer,
     Forall no_nan (concat layer) ->
     generate_toolpaths [[layer_path layer]] = [layer_path layer]).
Proof.
  assert (Hfix : forall path, key_sorted path -> sorted path = path).
  { intros path Hsorted. unfold sorted.
    now rewrite fold_insert_sorted_input. }
  assert (Hidem : forall path, Forall no_nan path ->
                               sorted (sorted path) = sorted path).
  { intros path Hnan. apply Hfix. now apply sorted_key_sorted. }
  split; [exact Hfix|]. split; [exact Hidem|].
  intros layer Hnan. rewrite generate_toolpaths_map. cbn [map concat].
  rewrite app_nil_r, layer_path_sorted. now rewrite Hidem.
Qed.

Lemma sorted_keeps_sorted_paths_witness :
  sorted [point_Z 0 0; point_Z 1 0; point_Z 1 1; point_Z 2 1] =
    [point_Z 0 0; point_Z 1 0; point_Z 1 1; point_Z 2 1].
Proof.
  destruct sorted_keeps_sorted_paths as (Hfix & _).
  apply Hfix. unfold key_sorted.
  repeat (constructor; [|repeat constructor; vm_compute; reflexivity]).
  constructor.
Defined.

(** ** The lines of the G-code *)

Lemma move_kinds p z :
  is_z_move (xy_move p) = false /\ is_xy_move (xy_move p) = true /\
  is_z_move (z_move z) = true /\ is_xy_move (z_move z) = false.
Proof. repeat split; reflexivity. Qed.

Lemma filter_z_xy_moves layer :
  filter is_z_move (map xy_move layer) = [] /\
  filter is_xy_move (map xy_move layer) = map xy_move layer.
Proof.
  induction layer as [|p layer [IHz IHx]]; cbn [map filter]; [now split|].
  destruct (move_kinds p (F64.of_Z 0)) as (-> & -> & _).
  split; [exact IHz|now rewrite IHx].
Qed.

Lemma filter_body_z_moves h toolpaths :
  forall z,
    filter is_z_move (body_from h z toolpaths) =
      map (fun i => z_move (swept_height z h (S i))) (seq 0 (length toolpaths)).
Proof.
  induction toolpaths as [|layer rest IH]; intros z;
    cbn [body_from length seq map]; [reflexivity|].
  unfold layer_block. cbn [app filter].
  destruct (move_kinds (F64.of_Z 0, F64.of_Z 0) (z + h)%f64) as (_ & _ & -> & _).
  rewrite filter_app, (proj1 (filter_z_xy_moves layer)), IH. cbn [app].
  f_equal. rewrite <- seq_shift, map_map.
  apply map_ext. intros i. now rewrite swept_height_shift.
Qed.

Lemma filter_body_xy_moves h toolpaths :
  forall z,
    filter is_xy_move (body_from h z toolpaths) = map xy_move (concat toolpaths).
Proof.
  induction toolpaths as [|layer rest IH]; intros z;
    cbn [body_from concat map]; [reflexivity|].
  unfold layer_block. cbn [app filter].
  destruct (move_kinds (F64.of_Z 0, F64.of_Z 0) (z + h)%f64) as (_ & _ & _ & ->).
  now rewrite filter_app, (proj2 (filter_z_xy_moves layer)), IH, map_app.
Qed.

Lemma gcode_writes_body_from toolpaths h :
  gcode_writes toolpaths h =
    preamble ++ body_from h (F64.of_Z 0) toolpaths ++ postamble.
Proof.
  rewrite gcode_writes_blocks. unfold gcode_body, indexed, running_height.
  now rewrite <- (body_from_indexed h (F64.of_Z 0) toolpaths 0).
Qed.

(** X10: the Z moves of the output are one per toolpath, in order, at the
    heights obtained by adding the layer height to 0 again and again: they
    depend on the number of toolpaths and on the layer height only, not on
    the points nor on the heights at which the layers were cut. *)
Theorem z_moves_depend_on_count_only (toolpaths : list Toolpath) (h : float) :
  filter is_z_move (gcode_writes toolpaths h) =
    map (fun i => z_move (running_height h (S i)))
        (seq 0 (length toolpaths)).
Proof.
  rewrite gcode_writes_body_from, !filter_app, filter_body_z_moves.
  change (filter is_z_move preamble) with (@nil string).
  change (filter is_z_move postamble) with (@nil string).
  cbn [app]. now rewrite app_nil_r.
Qed.

(** X11: the XY moves of the output are, in order, the points of the
    toolpaths in order, one line per point; nothing is dropped, repeated
    or reordered. *)
Theorem xy_moves_are_the_points (toolpaths : list Toolpath) (h : float) :
  filter is_xy_move (gcode_writes toolpaths h) =
    map xy_move (concat toolpaths).
Proof.
  rewrite gcode_writes_body_from, !filter_app, filter_body_xy_moves.
  change (filter is_xy_move preamble) with (@nil string).
  change (filter is_xy_move postamble) with (@nil string).
  cbn [app]. now rewrite app_nil_r.
Qed.

Lemma string_app_assoc (s1 s2 s3 : string) :
  (s1 ++ (s2 ++ s3))%string = ((s1 ++ s2) ++ s3)%string.
Proof. induction s1 as [|c s1 IH]; cbn; [reflexivity|now rewrite IH]. Qed.

Lemma count_nl_app s1 s2 :
  count_nl (s1 ++ s2)%string = (count_nl s1 + count_nl s2)%nat.
Proof. induction s1 as [|c s1 IH]; cbn; [reflexivity|rewrite IH; lia]. Qed.

Lemma all_digits_no_nl s : all_digits s = true -> count_nl s = 0%nat.
Proof.
  induction s as [|c s IH]; cbn; [reflexivity|].
  intros [Hc Hs]%andb_true_iff. rewrite (IH Hs).
  destruct (Ascii.eqb_spec c "010"%char) as [->|_]; [discriminate Hc|reflexivity].
Qed.

Lemma fixed2_no_nl s n : count_nl (fixed2 s n) = 0%nat.
Proof.
  unfold fixed2. rewrite !count_nl_app.
  rewrite !(all_digits_no_nl (digits _)) by apply digits_all_digits.
  now destruct s.
Qed.

Lemma fmt2_no_nl x : count_nl (fmt2 x) = 0%nat.
Proof.
  destruct x as [s|s| |s m e]; cbn [fmt2]; try apply fixed2_no_nl;
    try reflexivity.
  now destruct s.
Qed.

Lemma z_move_one_line z : one_line (z_move z).
Proof.
  exists ("G1 Z" ++ fmt2 z ++ " F300 ; Move to layer height")%string. split.
  - unfold z_move. now rewrite <- !string_app_assoc.
  - rewrite !count_nl_app, fmt2_no_nl. reflexivity.
Qed.

Lemma xy_move_one_line p : one_line (xy_move p).
Proof.
  exists ("G1 X" ++ fmt2 (fst p) ++ " Y" ++ fmt2 (snd p) ++ " F1500 ; Move")%string.
  split.
  - unfold xy_move. now rewrite <- !string_app_assoc.
  - rewrite !count_nl_app, !fmt2_no_nl. reflexivity.
Qed.

Lemma literal_one_line body :
  count_nl body = 0%nat -> one_line (body ++ nl)%string.
Proof. intros H. now exists body. Qed.

Lemma body_from_one_line h toolpaths :
  forall z, Forall one_line (body_from h z toolpaths).
Proof.
  induction toolpaths as [|layer rest IH]; intros z; cbn [body_from];
    [constructor|].
  unfold layer_block. constructor; [apply z_move_one_line|].
  apply Forall_app. split; [|apply IH].
  apply Forall_forall. intros line (p & <- & _)%in_map_iff.
  apply xy_move_one_line.
Qed.

Lemma one_line_count s : one_line s -> count_nl s = 1%nat.
Proof. intros (body & -> & H). rewrite count_nl_app, H. reflexivity. Qed.

Lemma count_nl_concat lines :
  Forall one_line lines ->
  count_nl (String.concat "" lines) = length lines.
Proof.
  induction 1 as [|line lines Hline Hlines IH]; [reflexivity|].
  cbn [String.concat length]. destruct lines as [|line' lines].
  - now apply one_line_count.
  - rewrite !count_nl_app, (one_line_count _ Hline), IH. reflexivity.
Qed.

(** X12: every call of [write] gives exactly one line, text without a line
    end followed by one; so the file has as many lines as there were calls:
    nine for the preamble and the postamble, one per toolpath and one per
    point. *)
Theorem one_line_per_write
    (toolpaths : list Toolpath) (h : float) (output_file : string)
    (fs : FileSystem) :
  Forall one_line (gcode_writes toolpaths h) /\
  exists text,
    generate_gcode toolpaths h output_file fs output_file = Some text /\
    count_nl text = (9 + length toolpaths + length (concat toolpaths))%nat.
Proof.
  assert (Hlines : Forall one_line (gcode_writes toolpaths h)).
  { rewrite gcode_writes_body_from.
    apply Forall_app. split; [|apply Forall_app; split].
    - unfold preamble. repeat (constructor; [now apply literal_one_line|]).
      constructor.
    - apply body_from_one_line.
    - unfold postamble. repeat (constructor; [now apply literal_one_line|]).
      constructor. }
  split; [exact Hlines|].
  unfold generate_gcode. rewrite String.eqb_refl.
  eexists. split; [reflexivity|].
  rewrite (count_nl_concat _ Hlines), gcode_writes_body_from.
  rewrite !length_app, body_from_length. cbn [preamble postamble length]. lia.
Qed.

(** ** From the mesh to the file *)

Lemma toolpaths_point_count (layers : list Layer) :
  Forall (Forall (fun seg => length seg = 2%nat)) layers ->
  length (concat (map (fun layer => sorted (concat layer)) layers)) =
    (2 * length (concat layers))%nat.
Proof.
  induction 1 as [|layer layers Hlayer _ IH]; cbn [map concat]; [reflexivity|].
  rewrite !length_app, IH, (Permutation_length (sorted_perm _)).
  rewrite (concat_two_points _ Hlayer). lia.
Qed.

(** X13: a run of the whole pipeline that finishes touches no file but the
    output file, and leaves in it nine lines for the preamble and the
    postamble, one line per layer and two lines per segment kept. *)
Theorem pipeline_output_lines
    (fuel : nat) (mesh_data : Mesh) (h : float) (output_file : string)
    (fs out : FileSystem) :
  pipeline fuel mesh_data h output_file fs = Ok out ->
  (forall name, name <> output_file -> out name = fs name) /\
  exists layers text,
    slice_model fuel mesh_data h = Ok layers /\
    out output_file = Some text /\
    count_nl text = (9 + length layers + 2 * length (concat layers))%nat.
Proof.
  unfold pipeline.
  destruct (slice_model fuel mesh_data h) as [layers| |] eqn:Hslice;
    try discriminate.
  intros [= <-]. split.
  - intros name Hname. unfold generate_gcode.
    apply String.eqb_neq in Hname. now rewrite Hname.
  - exists layers. unfold generate_gcode. rewrite String.eqb_refl.
    eexists. split; [reflexivity|]. split; [reflexivity|].
    assert (Htwo : Forall (Forall (fun seg => length seg = 2%nat)) layers).
    { revert Hslice. unfold slice_model.
      destruct (np_min (mesh_z mesh_data)) as [z_min|]; [|discriminate].
      destruct (np_max (mesh_z mesh_data)) as [z_max|]; [|discriminate].
      intros (n & _ & _ & ->)%slice_loop_ok. cbn [app].
      unfold swept_layers. apply Forall_forall.
      intros layer (k & <- & _)%in_map_iff. apply slice_layer_two_points. }
    rewrite count_nl_concat, gcode_writes_body_from.
    + rewrite !length_app, body_from_length, generate_toolpaths_map.
      rewrite length_map, (toolpaths_point_count _ Htwo).
      cbn [preamble postamble length]. unfold Layer, Segment in *. lia.
    + rewrite gcode_writes_body_from.
      apply Forall_app. split; [|apply Forall_app; split].
      * unfold preamble. repeat (constructor; [now apply literal_one_line|]).
        constructor.
      * apply body_from_one_line.
      * unfold postamble. repeat (constructor; [now apply literal_one_line|]).
        constructor.
Qed.

Lemma pipeline_output_lines_witness :
  exists text,
    generate_gcode
      (generate_toolpaths (swept_layers unit_mesh (F64.of_Z 0) (F64.dec 5 10) 3))
      (F64.dec 5 10) "out.gcode" (fun _ => None) "out.gcode"%string = Some text /\
    count_nl text = 14%nat.
Proof.
  destruct (pipeline_output_lines 4 unit_mesh (F64.dec 5 10) "out.gcode"
              (fun _ => None)
              (generate_gcode
                 (generate_toolpaths
                    (swept_layers unit_mesh (F64.of_Z 0) (F64.dec 5 10) 3))
                 (F64.dec 5 10) "out.gcode" (fun _ => None)))
    as (_ & layers & text & Hslice & Htext & Hcount).
  - unfold pipeline.
    replace (slice_model 4 unit_mesh (F64.dec 5 10))
      with (Ok (swept_layers unit_mesh (F64.of_Z 0) (F64.dec 5 10) 3))
      by (vm_compute; reflexivity).
    reflexivity.
  - exists text. split; [exact Htext|].
    rewrite Hcount.
    assert (Hl : slice_model 4 unit_mesh (F64.dec 5 10) =
                 Ok (swept_layers unit_mesh (F64.of_Z 0) (F64.dec 5 10) 3))
      by (vm_compute; reflexivity).
    rewrite Hl in Hslice. injection Hslice as <-.
    vm_compute; reflexivity.
Defined.
